(** * In One We Trust, frontend: query validation, symbol selection,
      request handlers and API relays

    A shallow embedding of the decision logic of [app/page.tsx] and of the
    route handlers under [app/api], with the properties the specification
    states about them.

    Layout:
    - [JS]    : the ECMAScript string built-ins the page calls
                ([trim], [toUpperCase], [encodeURIComponent], a character
                class regular expression);
    - [Http]  : what a handler observes of a [fetch] and the [Response]
                constructor;
    - [Relay] : the route handlers ([GET]): search, signal, lucky and the two
                health routes;
    - [Page]  : the component state of [Home], its event handlers split at
                their single [await], and the event loop that interleaves
                them. *)

From Stdlib Require Import List NArith ZArith Bool String Ascii QArith_base Lia.
Import ListNotations.

Local Open Scope N_scope.
Local Open Scope list_scope.

(* ================================================================== *)
(** * ECMAScript strings *)
(* ================================================================== *)

Module JS.

(** A JavaScript string is a finite sequence of UTF-16 code units. *)
Definition codeunit := N.
Definition jsstring := list codeunit.

(** String literals of the source are written [lit "..."]: every literal of
    the modelled code is ASCII, one code unit per character. *)
Definition lit (s : string) : jsstring :=
  map N_of_ascii (list_ascii_of_string s).

(** [between lo hi c]: lo <= c <= hi. *)
Definition between (lo hi c : N) : bool := (lo <=? c) && (c <=? hi).

(** Truthiness of a string: only the empty string is falsy. *)
Definition truthy (s : jsstring) : bool :=
  match s with [] => false | _ :: _ => true end.

(** [x || y] on strings. *)
Definition or_else (x y : jsstring) : jsstring := if truthy x then x else y.

(** ** String.prototype.trim

    [trim] strips WhiteSpace and LineTerminator code points from both ends
    (ECMA-262, TrimString).  All of them lie in the Basic Multilingual
    Plane, so the test is per code unit. *)
Definition isWhiteSpace (c : codeunit) : bool :=
  between 9 13 c            (* TAB, LF, VT, FF, CR *)
  || (c =? 32)              (* SPACE *)
  || (c =? 160)             (* NO-BREAK SPACE *)
  || (c =? 5760)            (* U+1680 *)
  || between 8192 8202 c    (* U+2000 .. U+200A *)
  || (c =? 8232) || (c =? 8233)   (* LS, PS *)
  || (c =? 8239)            (* U+202F *)
  || (c =? 8287)            (* U+205F *)
  || (c =? 12288)           (* U+3000 *)
  || (c =? 65279).          (* U+FEFF *)

Fixpoint dropWhile {A} (p : A -> bool) (l : list A) : list A :=
  match l with
  | [] => []
  | x :: l' => if p x then dropWhile p l' else l
  end.

Definition trimStart (s : jsstring) : jsstring := dropWhile isWhiteSpace s.
Definition trimEnd (s : jsstring) : jsstring :=
  rev (dropWhile isWhiteSpace (rev s)).
Definition trim (s : jsstring) : jsstring := trimEnd (trimStart s).

(** ** The regular expression /^[A-Za-z0-9 .-]+$/

    No flags: [^] and [$] anchor at the two ends of the input, the class is
    matched code unit by code unit, and the final [-] of the class is a
    literal hyphen. *)
Definition inClass (c : codeunit) : bool :=
  between 65 90 c           (* A-Z *)
  || between 97 122 c       (* a-z *)
  || between 48 57 c        (* 0-9 *)
  || (c =? 32)              (* space *)
  || (c =? 46)              (* . *)
  || (c =? 45).             (* - *)

(** [cls+] anchored at both ends: one member of the class, then any number
    of them, then the end of the input. *)
Definition test_class_plus (cls : codeunit -> bool) (s : jsstring) : bool :=
  match s with
  | [] => false
  | c :: rest => cls c && forallb cls rest
  end.

(** ** UTF-16 *)
Definition isLeadSurrogate (c : codeunit) : bool := between 55296 56319 c.
Definition isTrailSurrogate (c : codeunit) : bool := between 56320 57343 c.

Definition pairToCodePoint (hi lo : codeunit) : N :=
  65536 + (hi - 55296) * 1024 + (lo - 56320).

(** StringToCodePoints: a lead surrogate followed by a trail surrogate is
    one code point, every other code unit stands for itself. *)
Fixpoint codePoints (s : jsstring) : list N :=
  match s with
  | [] => []
  | c :: rest =>
      match rest with
      | lo :: rest' =>
          if isLeadSurrogate c && isTrailSurrogate lo
          then pairToCodePoint c lo :: codePoints rest'
          else c :: codePoints rest
      | [] => [c]
      end
  end.

Definition utf16 (cp : N) : jsstring :=
  if cp <? 65536 then [cp]
  else [55296 + (cp - 65536) / 1024; 56320 + (cp - 65536) mod 1024].

(** ** String.prototype.toUpperCase

    The result is the UTF-16 form of the code points of the input, each
    replaced by its full Unicode upper-case mapping.  On Basic Latin the
    mapping is [a-z] to [A-Z]; white space has no case mapping; the rest of
    the Unicode case table is not part of the repository and is taken as the
    parameter [unicodeUpper]. *)
Section Case.
Variable unicodeUpper : N -> list N.

Definition upperCodePoint (cp : N) : list N :=
  if between 97 122 cp then [cp - 32]
  else if cp <? 128 then [cp]
  else if isWhiteSpace cp then [cp]
  else unicodeUpper cp.

Definition toUpperCase (s : jsstring) : jsstring :=
  flat_map utf16 (flat_map upperCodePoint (codePoints s)).
End Case.

(** Upper-casing of one code unit of Basic Latin: what [toUpperCase] does
    to a string of Basic Latin and white space (lemma
    [toUpperCase_plain]). *)
Definition upperUnit (c : codeunit) : codeunit :=
  if between 97 122 c then c - 32 else c.

(** The code units an accepted query is made of: white space (trimmed
    away) and members of the class [A-Za-z0-9 .-]. *)
Definition plain (c : codeunit) : Prop :=
  isWhiteSpace c = true \/ inClass c = true.

(** A case table that maps nothing: enough to run ASCII examples. *)
Definition noCaseTable : N -> list N := fun cp => [cp].

(** ** encodeURIComponent

    Code units of the unreserved set are copied; every other code point is
    written as the percent-escaped bytes of its UTF-8 encoding; an unpaired
    surrogate raises URIError ([None]). *)
Definition uriUnreserved (c : codeunit) : bool :=
  between 65 90 c || between 97 122 c || between 48 57 c
  || (c =? 45) || (c =? 95) || (c =? 46) || (c =? 33) || (c =? 126)
  || (c =? 42) || (c =? 39) || (c =? 40) || (c =? 41).
      (* - _ . ! ~ * ' ( ) *)

Definition utf8 (cp : N) : list N :=
  if cp <? 128 then [cp]
  else if cp <? 2048 then [192 + cp / 64; 128 + cp mod 64]
  else if cp <? 65536 then
    [224 + cp / 4096; 128 + (cp / 64) mod 64; 128 + cp mod 64]
  else
    [240 + cp / 262144; 128 + (cp / 4096) mod 64;
     128 + (cp / 64) mod 64; 128 + cp mod 64].

Definition hexDigit (d : N) : codeunit :=
  if d <? 10 then 48 + d else 55 + d.

Definition percent (byte : N) : jsstring :=
  [37; hexDigit (byte / 16); hexDigit (byte mod 16)].

Definition escapeCodePoint (cp : N) : jsstring := flat_map percent (utf8 cp).

Fixpoint encodeURIComponent (s : jsstring) : option jsstring :=
  match s with
  | [] => Some []
  | c :: rest =>
      if uriUnreserved c then option_map (cons c) (encodeURIComponent rest)
      else if isLeadSurrogate c then
        match rest with
        | lo :: rest' =>
            if isTrailSurrogate lo
            then option_map (app (escapeCodePoint (pairToCodePoint c lo)))
                            (encodeURIComponent rest')
            else None
        | [] => None
        end
      else if isTrailSurrogate c then None
      else option_map (app (escapeCodePoint c)) (encodeURIComponent rest)
  end.

End JS.

Import JS.

(* ================================================================== *)
(** * What a handler sees of HTTP *)
(* ================================================================== *)

Module Http.

(** The numbers [JSON.parse] produces: a finite double (a rational, or
    the negative zero), or an infinity for a literal beyond the range of
    the doubles, such as 1e400. *)
Inductive JsNumber : Type :=
| Finite (x : Q)
| NegativeZero
| PlusInfinity
| MinusInfinity.

(** JSON values, as [JSON.parse] builds them. *)
#[warnings="-register-all"]
Inductive Json : Type :=
| JNull
| JBool (b : bool)
| JNumber (x : JsNumber)
| JString (s : jsstring)
| JArray (items : list Json)
| JObject (fields : list (jsstring * Json)).

(** What [JSON.stringify] writes of a parsed value, as the value the
    written text stands for: an infinity is written [null], the negative
    zero [0], anything else as itself. *)
Definition writtenNumber (x : JsNumber) : Json :=
  match x with
  | Finite x => JNumber (Finite x)
  | NegativeZero => JNumber (Finite 0)
  | PlusInfinity | MinusInfinity => JNull
  end.

Fixpoint written (d : Json) : Json :=
  match d with
  | JNull => JNull
  | JBool b => JBool b
  | JNumber x => writtenNumber x
  | JString s => JString s
  | JArray items => JArray (map written items)
  | JObject fields =>
      JObject (map (fun kv => (fst kv, written (snd kv))) fields)
  end.

(** ** UTF-8, as the body of a response is read and written

    The decoder of the Encoding standard, between two bytes: nothing
    pending ([Ready]), or a code point under construction, the number of
    continuation bytes still needed and the bounds of the next byte. *)
Inductive Decoder : Type :=
| Ready
| Partial (cp needed lower upper : N).

(** A byte read with nothing pending: an ASCII byte is a code point, a
    lead byte opens a sequence, any other byte is an error (U+FFFD). *)
Definition leadByte (b : N) : list N * Decoder :=
  if b <=? 127 then ([b], Ready)
  else if between 194 223 b then ([], Partial (N.land b 31) 1 128 191)
  else if between 224 239 b then
    ([], Partial (N.land b 15) 2
           (if b =? 224 then 160 else 128) (if b =? 237 then 159 else 191))
  else if between 240 244 b then
    ([], Partial (N.land b 7) 3
           (if b =? 240 then 144 else 128) (if b =? 244 then 143 else 191))
  else ([65533], Ready).

(** A byte outside the bounds ends the sequence with an error and is read
    again with nothing pending; the end of the input inside a sequence is
    an error. *)
Fixpoint decodeFrom (st : Decoder) (bytes : list N) : list N :=
  match bytes with
  | [] => match st with Ready => [] | Partial _ _ _ _ => [65533] end
  | b :: rest =>
      match st with
      | Ready => let (out, st') := leadByte b in out ++ decodeFrom st' rest
      | Partial cp needed lower upper =>
          if between lower upper b then
            let cp' := N.lor (N.shiftl cp 6) (N.land b 63) in
            if needed =? 1 then cp' :: decodeFrom Ready rest
            else decodeFrom (Partial cp' (needed - 1) 128 191) rest
          else
            let (out, st') := leadByte b in
            65533 :: out ++ decodeFrom st' rest
      end
  end.

(** A byte order mark at the start of the input is skipped. *)
Definition dropBOM (bytes : list N) : list N :=
  match bytes with
  | a :: b :: c :: rest =>
      if (a =? 239) && (b =? 187) && (c =? 191) then rest else bytes
  | _ => bytes
  end.

(** "UTF-8 decode", to a string: what [r.text()] does to the bytes of a
    body. *)
Definition utf8Decode (bytes : list N) : jsstring :=
  flat_map utf16 (decodeFrom Ready (dropBOM bytes)).

(** A string given as the body of a response is written as the UTF-8
    bytes of its code points, an unpaired surrogate as U+FFFD. *)
Definition scalarValue (cp : N) : N :=
  if isLeadSurrogate cp || isTrailSurrogate cp then 65533 else cp.

Definition utf8Encode (s : jsstring) : list N :=
  flat_map utf8 (map scalarValue (codePoints s)).

(** The [Response] object a resolved [fetch] hands to the handler, as the
    record of what the handler can read from it:
    [status] is [r.status]; [contentType] is [r.headers.get("Content-Type")]
    ([None] for [null]: the header is absent); [bytes] holds the bytes of
    the body, [None] when reading the body rejects; [json] is what
    [await r.json()] resolves to ([None] when it rejects: the body cannot
    be read or is not JSON). *)
Record Upstream : Type := {
  status : N;
  contentType : option jsstring;
  bytes : option (list N);
  json : option Json
}.

(** [await r.text()]: the decoded body, [None] when reading it rejects. *)
Definition text (r : Upstream) : option jsstring :=
  option_map utf8Decode (bytes r).

(** [await fetch(...)] either rejects (network failure) or resolves. *)
Inductive Fetch : Type :=
| Rejected
| Resolved (r : Upstream).

(** [r.ok] *)
Definition ok (st : N) : bool := between 200 299 st.

(** The body of a response built by a handler: a string, or the text
    [JSON.stringify(data)] of a value [data] ([Response.json]), which
    stands for the value [written data]. *)
Inductive Body : Type :=
| BodyText (s : jsstring)
| BodyJson (data : Json).

Record Response : Type := {
  statusCode : N;
  headers : list (jsstring * jsstring);
  body : Body
}.

(** Header names compare case-insensitively. *)
Definition lowerUnit (c : codeunit) : codeunit :=
  if between 65 90 c then c + 32 else c.

Fixpoint eqName (a b : jsstring) : bool :=
  match a, b with
  | [], [] => true
  | x :: a', y :: b' => (lowerUnit x =? lowerUnit y) && eqName a' b'
  | _, _ => false
  end.

Fixpoint getHeader (name : jsstring) (hs : list (jsstring * jsstring))
  : option jsstring :=
  match hs with
  | [] => None
  | (n, v) :: hs' => if eqName n name then Some v else getHeader name hs'
  end.

(** Statuses for which a response carries no body (Fetch standard). *)
Definition nullBodyStatus (st : N) : bool :=
  (st =? 101) || (st =? 103) || (st =? 204) || (st =? 205) || (st =? 304).

(** [new Response(body, { status, headers })] with a string body: the
    constructor throws a RangeError when the status is outside 200..599 and
    a TypeError when a body is given with a null-body status ([None]). *)
Definition new_Response (b : jsstring) (st : N)
  (hs : list (jsstring * jsstring)) : option Response :=
  if negb (between 200 599 st) then None
  else if nullBodyStatus st then None
  else Some {| statusCode := st; headers := hs; body := BodyText b |}.

(** [Response.json(data, { headers })]: status 200, the serialization of
    [data] as body, and a JSON content type unless [headers] gives one. *)
Definition Response_json (data : Json) (hs : list (jsstring * jsstring))
  : Response :=
  {| statusCode := 200;
     headers :=
       match getHeader (lit "content-type") hs with
       | Some _ => hs
       | None => hs ++ [(lit "content-type", lit "application/json")]
       end;
     body := BodyJson data |}.

(** A value interpolated in a template literal or used as a header value:
    [undefined] reads "undefined". *)
Definition interpolate (v : option jsstring) : jsstring :=
  match v with Some s => s | None => lit "undefined" end.

(** [x ?? y] *)
Definition nullish {A} (x : option A) (y : A) : A :=
  match x with Some v => v | None => y end.

End Http.

(* ================================================================== *)
(** * The route handlers under app/api *)
(* ================================================================== *)

Module Relay.
Import Http.

(** One run of a handler: the upstream request it sends, and how it answers
    once the upstream [fetch] has settled ([None]: the handler throws, no
    response of its own is produced). *)
Record Exchange : Type := {
  url : jsstring;
  requestCache : option jsstring;     (* the [cache] option of [fetch] *)
  requestHeaders : list (jsstring * jsstring);
  respond : Fetch -> option Response
}.

(** The tail shared by the search, signal and lucky handlers and by the
    health handler of src/app/api/health/route.ts:
    [new Response(await r.text(), { status: r.status,
       headers: { "Content-Type": r.headers.get("Content-Type") ?? "application/json" } })].
    The handler throws when the fetch rejects, when reading the body
    rejects and when the constructor refuses the status. *)
Definition passThrough (f : Fetch) : option Response :=
  match f with
  | Rejected => None
  | Resolved r =>
      match text r with
      | None => None
      | Some t =>
          new_Response t (status r)
            [(lit "Content-Type",
              nullish (contentType r) (lit "application/json"))]
      end
  end.

(** [process.env.API_BASE!] and [process.env.API_KEY!] are the arguments
    [API_BASE] and [API_KEY] of every handler ([None]: not set). *)
Definition apiKeyHeader (API_KEY : option jsstring)
  : list (jsstring * jsstring) :=
  [(lit "X-Api-Key", interpolate API_KEY)].

(** The search route: [GET(req)], where [q] is [searchParams.get("q")].
    The handler throws before any request when [encodeURIComponent] does. *)
Module Search.
Definition GET (API_BASE API_KEY : option jsstring) (q : option jsstring)
  : option Exchange :=
  let q := nullish q [] in
  let base := API_BASE in
  match encodeURIComponent q with
  | None => None
  | Some enc =>
      Some {| url := interpolate base ++ lit "/search?q=" ++ enc;
              requestCache := None;
              requestHeaders := apiKeyHeader API_KEY;
              respond := passThrough |}
  end.
End Search.

(** The lucky route: [GET()]. *)
Module Lucky.
Definition GET (API_BASE API_KEY : option jsstring) : option Exchange :=
  let base := API_BASE in
  Some {| url := interpolate base ++ lit "/lucky";
          requestCache := None;
          requestHeaders := apiKeyHeader API_KEY;
          respond := passThrough |}.
End Lucky.

(** The signal route: [GET(_req, { params })], where [symbol] is
    [params.symbol]. *)
Module Signal.
Definition GET (API_BASE API_KEY : option jsstring) (symbol : jsstring)
  : option Exchange :=
  let base := API_BASE in
  match encodeURIComponent symbol with
  | None => None
  | Some enc =>
      Some {| url := interpolate base ++ lit "/signal/" ++ enc;
              requestCache := None;
              requestHeaders := apiKeyHeader API_KEY;
              respond := passThrough |}
  end.
End Signal.

(** The health handler of src/app/api/health/route.ts: the upstream is
    fetched with [cache: "no-store"] (an option of the outgoing request),
    without API key, and the answer is passed through. *)
Module Health.
Definition GET (API_BASE : option jsstring) : option Exchange :=
  let base := API_BASE in
  Some {| url := interpolate base ++ lit "/health";
          requestCache := Some (lit "no-store");
          requestHeaders := [];
          respond := passThrough |}.
End Health.

(** The second health route of the repository:
    [const data = await r.json();
     return Response.json(data, { headers: { "Cache-Control": "no-store" } })].
    [r.status] and the upstream headers are never read. *)
Module HealthNoStore.
Definition reserialize (f : Fetch) : option Response :=
  match f with
  | Rejected => None
  | Resolved r =>
      match json r with
      | None => None
      | Some data =>
          Some (Response_json data [(lit "Cache-Control", lit "no-store")])
      end
  end.

Definition GET (API_BASE : option jsstring) : option Exchange :=
  let base := API_BASE in
  Some {| url := interpolate base ++ lit "/health";
          requestCache := Some (lit "no-store");
          requestHeaders := [];
          respond := reserialize |}.
End HealthNoStore.

(** The handler's answer to a settled upstream fetch ([None]: it throws). *)
Definition answer (e : option Exchange) (f : Fetch) : option Response :=
  match e with
  | Some ex => respond ex f
  | None => None
  end.

(** The bytes a response is sent with, when its body is a string. *)
Definition sentBytes (resp : Response) : option (list N) :=
  match body resp with
  | BodyText t => Some (utf8Encode t)
  | BodyJson _ => None
  end.

(** Bytes that are the UTF-8 encoding of Unicode scalar values, the first
    of which is not a byte order mark: the bodies that survive being
    decoded and encoded again. *)
Definition unicodeScalar (cp : N) : Prop :=
  cp < 1114112 /\ isLeadSurrogate cp = false /\ isTrailSurrogate cp = false.

Definition plainUtf8 (b : list N) : Prop :=
  exists cps,
    b = flat_map utf8 cps /\ Forall unicodeScalar cps
    /\ nth_error cps 0 <> Some 65279.

(** [resp] carries the status of the upstream answer [r], its content
    type, or application/json when there is none, and as body the decoded
    body [b] of [r], sent as the bytes [b] themselves when they are UTF-8
    without byte order mark. *)
Definition carries (resp : Response) (r : Upstream) (b : list N) : Prop :=
  statusCode resp = status r
  /\ body resp = BodyText (utf8Decode b)
  /\ (plainUtf8 b -> sentBytes resp = Some b)
  /\ (forall ct, contentType r = Some ct ->
        getHeader (lit "Content-Type") (headers resp) = Some ct)
  /\ (contentType r = None ->
        getHeader (lit "Content-Type") (headers resp)
        = Some (lit "application/json")).

(** The marking of a response as not cacheable. *)
Definition nonCacheable (resp : Response) : Prop :=
  getHeader (lit "Cache-Control") (headers resp) = Some (lit "no-store").

(** Upstream answers: 503 with the JSON body {"status":"down"}; an empty
    204; a 404 whose body "oops" starts with a byte order mark; a 200 whose
    body is cut inside a two-byte sequence; and a 200 whose body cannot be
    read. *)
Definition downBytes : list N :=
  [123; 34] ++ lit "status" ++ [34; 58; 34] ++ lit "down" ++ [34; 125].

Definition down : Upstream :=
  {| status := 503;
     contentType := Some (lit "application/json");
     bytes := Some downBytes;
     json := Some (JObject [(lit "status", JString (lit "down"))]) |}.

Definition noContent : Upstream :=
  {| status := 204; contentType := None; bytes := Some []; json := None |}.

Definition marked : Upstream :=
  {| status := 404; contentType := Some (lit "text/plain");
     bytes := Some ([239; 187; 191] ++ lit "oops"); json := None |}.

Definition cut : Upstream :=
  {| status := 200; contentType := None;
     bytes := Some (lit "caf" ++ [195]); json := None |}.

Definition broken : Upstream :=
  {| status := 200; contentType := None; bytes := None; json := None |}.

(** A 200 whose JSON body is the number 1e400, beyond the doubles. *)
Definition huge : Upstream :=
  {| status := 200; contentType := Some (lit "application/json");
     bytes := Some (lit "1e400"); json := Some (JNumber PlusInfinity) |}.

End Relay.

(* ================================================================== *)
(** * The page: app/page.tsx *)
(* ================================================================== *)

Module Page.

(** ** Types *)
Inductive ResultType : Type := ticker | company.

Record SearchResult : Type := {
  query : jsstring;
  normalized : jsstring;
  type : ResultType;
  suggestions : list jsstring
}.

Inductive Action : Type := BUY | SELL | HOLD.

(** [score] is a JSON number, as [JSON.parse] gives it. *)
Record Signal : Type := {
  symbol : jsstring;
  action : Action;
  score : Http.JsNumber;
  reasons : list jsstring
}.

Record LuckyResponse : Type := {
  picks : list Signal;
  note : jsstring
}.

(** The fields the page reads of the body of /health. *)
Record HealthData : Type := {
  data_status : option jsstring;
  data_server_time : option jsstring;
  data_version : option jsstring
}.

Record Meta : Type := {
  server_time : option jsstring;
  version : option jsstring
}.

(** ** Component state: one field per [useState] of [Home]. *)
Record State : Type := mkState {
  status : option jsstring;
  error : option jsstring;
  q : jsstring;
  result : option SearchResult;
  signal : option Signal;
  lucky : option LuckyResponse;
  loading : bool;
  meta : Meta
}.

Definition initial : State :=
  {| status := None; error := None; q := []; result := None;
     signal := None; lucky := None; loading := false;
     meta := {| server_time := None; version := None |} |}.

Definition setStatus (v : option jsstring) (s : State) : State :=
  mkState v (error s) (q s) (result s) (signal s) (lucky s) (loading s) (meta s).
Definition setError (v : option jsstring) (s : State) : State :=
  mkState (status s) v (q s) (result s) (signal s) (lucky s) (loading s) (meta s).
Definition setQ (v : jsstring) (s : State) : State :=
  mkState (status s) (error s) v (result s) (signal s) (lucky s) (loading s) (meta s).
Definition setResult (v : option SearchResult) (s : State) : State :=
  mkState (status s) (error s) (q s) v (signal s) (lucky s) (loading s) (meta s).
Definition setSignal (v : option Signal) (s : State) : State :=
  mkState (status s) (error s) (q s) (result s) v (lucky s) (loading s) (meta s).
Definition setLucky (v : option LuckyResponse) (s : State) : State :=
  mkState (status s) (error s) (q s) (result s) (signal s) v (loading s) (meta s).
Definition setLoading (v : bool) (s : State) : State :=
  mkState (status s) (error s) (q s) (result s) (signal s) (lucky s) v (meta s).
Definition setMeta (v : Meta) (s : State) : State :=
  mkState (status s) (error s) (q s) (result s) (signal s) (lucky s) (loading s) v.

(** The values of the end-to-end example of the specification. *)
Definition tesla : SearchResult :=
  {| query := lit "TESLA"; normalized := lit "TSLA"; type := company;
     suggestions := [lit "TSLA"] |}.

Definition demoSignal : Signal :=
  {| symbol := lit "TSLA"; action := HOLD; score := Http.Finite (Qmake 0 1);
     reasons := [lit "demo"] |}.

Definition demoPicks : LuckyResponse :=
  {| picks := [demoSignal]; note := lit "demo" |}.

(** ** What a handler sees of a [fetch]

    [Rejected]: the promise of [fetch] rejects (network failure, abort).
    [Resolved st body]: it resolves with [r.status = st]; [body] is what
    [(await r.json()) as A] gives, [None] when [r.json()] rejects.
    [ResolvedNull st]: it resolves with [r.status = st] and a body that is
    the JSON value [null], which [as A] lets through.  The [as A] of the
    source is unchecked; apart from [null] the model follows the declared
    type. *)
Inductive Reply (A : Type) : Type :=
| Rejected
| Resolved (st : N) (body : option A)
| ResolvedNull (st : N).
Arguments Rejected {A}.
Arguments Resolved {A} st body.
Arguments ResolvedNull {A} st.

(** ** An async handler, split at its [await fetch(...)]

    [Return s]: the handler ran to its end without a request, leaving [s].
    [Await s url k]: it set the state to [s], dispatched a GET of [url] and
    is suspended; when the request settles with [r] and the state is then
    [s'], the rest of the handler leaves [k r s']. *)
Inductive Async (A : Type) : Type :=
| Return (s : State)
| Await (s : State) (url : jsstring) (k : Reply A -> State -> State).
Arguments Return {A} s.
Arguments Await {A} s url k.

(** Code that follows an awaited call of an async function. *)
Definition andThen {A} (a : Async A) (f : State -> State) : Async A :=
  match a with
  | Return s => Return (f s)
  | Await s url k => Await s url (fun r s' => f (k r s'))
  end.

(** The state when the handler yields. *)
Definition yielded {A} (a : Async A) : State :=
  match a with Return s => s | Await s _ _ => s end.

(** The request a handler dispatches, if any. *)
Definition dispatched {A} (a : Async A) : option jsstring :=
  match a with Return _ => None | Await _ url _ => Some url end.

(** The handler run to completion, no other event in between: [r] is how
    its request settles. *)
Definition complete {A} (a : Async A) (r : Reply A) : State :=
  match a with Return s => s | Await s _ k => k r s end.

(** [!v] for [v : string | undefined]. *)
Definition not_ (v : option jsstring) : bool :=
  match v with Some s => negb (truthy s) | None => true end.

(** [v || d] for [v : string | undefined]. *)
Definition or_ (v : option jsstring) (d : jsstring) : jsstring :=
  match v with Some s => or_else s d | None => d end.

(** ** Input validation (page.tsx, lines 113-120) *)
Definition validateQuery (input : jsstring) : option jsstring :=
  let trimmed := trim input in
  if negb (truthy trimmed) then Some (lit "Query cannot be empty.")
  else if 50 <? N.of_nat (List.length trimmed) then Some (lit "Query too long.")
  else if negb (test_class_plus inClass trimmed)
  then Some (lit "Query contains invalid characters.")
  else None.

(** ** The symbol asked for (page.tsx, lines 169-172)

    [result.type === "ticker" ? result.normalized
       : result.suggestions?.[0] || result.normalized] *)
Definition selectSymbol (result : SearchResult) : jsstring :=
  match type result with
  | ticker => normalized result
  | company => or_ (nth_error (suggestions result) 0) (normalized result)
  end.

Section Home.
(** [process.env.NEXT_PUBLIC_API_BASE] *)
Variable base : option jsstring.
(** The Unicode case table behind [toUpperCase]. *)
Variable unicodeUpper : N -> list N.

(** [onChange] of the search input. *)
Definition onChange (value : jsstring) (s : State) : State :=
  setQ (toUpperCase unicodeUpper value) s.

Definition performSearch (query : jsstring) (s : State)
  : Async SearchResult :=
  if not_ base then Return (setError (Some (lit "API base not configured.")) s)
  else
    let s := setResult None s in
    let s := setSignal None s in
    let s := setLucky None s in
    let s := setError None s in
    let catch := setError (Some (lit "Search failed. Please try again.")) in
    match encodeURIComponent query with
    | None => Return (catch s)
    | Some enc =>
        Await s (Http.interpolate base ++ lit "/search?q=" ++ enc)
          (fun r s =>
             match r with
             | Rejected => catch s
             | Resolved st body =>
                 if negb (Http.ok st) then catch s
                 else match body with
                      | None => catch s
                      | Some data => setResult (Some data) s
                      end
             | ResolvedNull st =>
                 if negb (Http.ok st) then catch s else setResult None s
             end)
    end.

Definition onSearch (s : State) : Async SearchResult :=
  let validationError := validateQuery (q s) in
  match validationError with
  | Some message => Return (setError (Some message) s)
  | None =>
      andThen (performSearch (q s) (setLoading true s)) (setLoading false)
  end.

Definition getSignal (s : State) : Async Signal :=
  match result s with
  | None => Return s
  | Some result =>
      if not_ base
      then Return (setError (Some (lit "API base not configured.")) s)
      else
        let s := setLoading true s in
        let s := setSignal None s in
        let s := setLucky None s in
        let s := setError None s in
        let sym := selectSymbol result in
        let catch := setError (Some (lit "Failed to fetch signal.")) in
        let finally := setLoading false in
        match encodeURIComponent sym with
        | None => Return (finally (catch s))
        | Some enc =>
            Await s (Http.interpolate base ++ lit "/signal/" ++ enc)
              (fun r s =>
                 finally
                   match r with
                   | Rejected => catch s
                   | Resolved st body =>
                       if negb (Http.ok st) then catch s
                       else match body with
                            | None => catch s
                            | Some data => setSignal (Some data) s
                            end
                   | ResolvedNull st =>
                       if negb (Http.ok st) then catch s else setSignal None s
                   end)
        end
  end.

Definition feelingLucky (s : State) : Async LuckyResponse :=
  if not_ base
  then Return (setError (Some (lit "API base not configured.")) s)
  else
    let s := setLoading true s in
    let s := setSignal None s in
    let s := setLucky None s in
    let s := setError None s in
    let catch := setError (Some (lit "Failed to fetch lucky picks.")) in
    let finally := setLoading false in
    Await s (Http.interpolate base ++ lit "/lucky")
      (fun r s =>
         finally
           match r with
           | Rejected => catch s
           | Resolved st body =>
               if negb (Http.ok st) then catch s
               else match body with
                    | None => catch s
                    | Some data => setLucky (Some data) s
                    end
           | ResolvedNull st =>
               if negb (Http.ok st) then catch s else setLucky None s
           end).

(** The health check of the mount effect (page.tsx, lines 72-110).  The
    10 s timer aborts the request, which makes [fetch] reject. *)
Definition checkHealth (s : State) : Async HealthData :=
  if not_ base
  then Return (setError
                 (Some (lit "Missing NEXT_PUBLIC_API_BASE. Set it in Vercel "
                        ++ [8594] ++ lit " Settings " ++ [8594]
                        ++ lit " Environment Variables.")) s)
  else
    let catch := setError (Some (lit "Unable to reach API.")) in
    Await s (Http.interpolate base ++ lit "/health")
      (fun r s =>
         match r with
         | Rejected => catch s
         | Resolved st body =>
             if negb (Http.ok st) then catch s
             else match body with
                  | None => catch s
                  | Some data =>
                      let s :=
                        setStatus
                          (Some (or_ (data_status data) (lit "unknown"))) s in
                      setMeta {| server_time := data_server_time data;
                                 version := data_version data |} s
                  end
         | ResolvedNull st =>
             (* [data.status] throws on [null] *)
             if negb (Http.ok st) then catch s else catch s
         end).

(** ** The event loop

    A world is the component state and the requests in flight, each with
    the suspended rest of its handler. *)
Inductive InFlight : Type :=
| HealthRequest (k : Reply HealthData -> State -> State)
| SearchRequest (k : Reply SearchResult -> State -> State)
| SignalRequest (k : Reply Signal -> State -> State)
| LuckyRequest (k : Reply LuckyResponse -> State -> State).

Record World : Type := {
  ui : State;
  pending : list InFlight
}.

(** Running a handler up to its [await]. *)
Definition launch {A} (wrap : (Reply A -> State -> State) -> InFlight)
  (a : Async A) (others : list InFlight) : World :=
  match a with
  | Return s => {| ui := s; pending := others |}
  | Await s _ k => {| ui := s; pending := wrap k :: others |}
  end.

(** [settles f s s']: request [f] settles in state [s], and the rest of
    its handler leaves [s']. *)
Definition settles (f : InFlight) (s s' : State) : Prop :=
  match f with
  | HealthRequest k => exists r, s' = k r s
  | SearchRequest k => exists r, s' = k r s
  | SignalRequest k => exists r, s' = k r s
  | LuckyRequest k => exists r, s' = k r s
  end.

(** First render: the mount effect starts the health check. *)
Definition mount : World := launch HealthRequest (checkHealth initial) [].

(** The events of the page.  The submit button is [disabled={loading}];
    the Get Signal and Lucky buttons are rendered only when [result] is
    set and are [disabled={loading}]; the text input is always enabled;
    a request in flight settles at any time. *)
Inductive step (w : World) : World -> Prop :=
| step_change (value : jsstring) :
    step w {| ui := onChange value (ui w); pending := pending w |}
| step_submit :
    loading (ui w) = false ->
    step w (launch SearchRequest (onSearch (ui w)) (pending w))
| step_getSignal :
    result (ui w) <> None -> loading (ui w) = false ->
    step w (launch SignalRequest (getSignal (ui w)) (pending w))
| step_feelingLucky :
    result (ui w) <> None -> loading (ui w) = false ->
    step w (launch LuckyRequest (feelingLucky (ui w)) (pending w))
| step_settle (before after : list InFlight) (f : InFlight) (s' : State) :
    pending w = before ++ f :: after ->
    settles f (ui w) s' ->
    step w {| ui := s'; pending := before ++ after |}.

Inductive reachable : World -> Prop :=
| reach_mount : reachable mount
| reach_step w w' : reachable w -> step w w' -> reachable w'.

(** ** Invariant of the event loop *)

(** The requests started by the user, as opposed to the health check. *)
Definition userRequest (f : InFlight) : bool :=
  match f with HealthRequest _ => false | _ => true end.

(** What the suspended rest of a handler does, whatever the reply and
    the state it resumes in: the health check leaves [loading], [result],
    [signal] and [lucky] alone; a user request ends with [loading] false
    and writes at most its own result. *)
Definition wellBehaved (f : InFlight) : Prop :=
  match f with
  | HealthRequest k =>
      forall r s, loading (k r s) = loading s /\ signal (k r s) = signal s
                  /\ lucky (k r s) = lucky s
  | SearchRequest k =>
      forall r s, loading (k r s) = false /\ signal (k r s) = signal s
                  /\ lucky (k r s) = lucky s
  | SignalRequest k =>
      forall r s, loading (k r s) = false /\ lucky (k r s) = lucky s
  | LuckyRequest k =>
      forall r s, loading (k r s) = false /\ signal (k r s) = signal s
  end.

(** At most one user request is in flight; [loading] is true exactly
    while one is, and then neither a signal nor lucky picks are shown;
    at rest at most one of the two is shown. *)
Definition invariant (w : World) : Prop :=
  Forall wellBehaved (pending w)
  /\ match filter userRequest (pending w) with
     | [] => loading (ui w) = false
             /\ (signal (ui w) = None \/ lucky (ui w) = None)
     | [_] => loading (ui w) = true
              /\ signal (ui w) = None /\ lucky (ui w) = None
     | _ => False
     end.
End Home.

End Page.

(* ================================================================== *)
(** * What the page renders, and more of its event loop *)
(* ================================================================== *)

Module View.
Import Page.

(** The "Checking..." line of the health card (page.tsx, line 234):
    [{!status && !error && <span>...</span>}]. *)
Definition showsChecking (s : State) : bool :=
  not_ (status s) && not_ (error s).


(** The result card, with its two buttons (page.tsx, lines 269-299):
    [{result && ...}]. *)
Definition showsResult (s : State) : bool :=
  match result s with Some _ => true | None => false end.

(** The signal card and the picks card (page.tsx, lines 302 and 317). *)
Definition showsSignal (s : State) : bool :=
  match signal s with Some _ => true | None => false end.
Definition showsLucky (s : State) : bool :=
  match lucky s with Some _ => true | None => false end.

(** What the suspended rest of a handler does to the SearchResult: only
    a search writes it. *)
Definition keepsResult (f : InFlight) : Prop :=
  match f with
  | HealthRequest k => forall r s, result (k r s) = result s
  | SearchRequest k => True
  | SignalRequest k => forall r s, result (k r s) = result s
  | LuckyRequest k => forall r s, result (k r s) = result s
  end.

(** The search request, as opposed to the signal and lucky requests. *)
Definition isSearch (f : InFlight) : bool :=
  match f with SearchRequest _ => true | _ => false end.

(** A signal or picks are only ever held together with a SearchResult, and
    a signal or lucky request is only in flight with one held. *)
Definition resultBehind (w : World) : Prop :=
  Forall keepsResult (pending w)
  /\ (forall f, In f (filter userRequest (pending w)) -> isSearch f = false ->
      showsResult (ui w) = true)
  /\ (filter userRequest (pending w) = [] ->
      showsSignal (ui w) || showsLucky (ui w) = true ->
      showsResult (ui w) = true).

(** What a handler stores of a reply it accepts: the fetch resolved, the
    status is 2xx and the body was read as JSON; the stored value is the
    payload, or [null] ([Some None]).  [None]: the reply is refused. *)
Definition accepted {A} (r : Reply A) : option (option A) :=
  match r with
  | Rejected => None
  | Resolved st body => if Http.ok st then option_map Some body else None
  | ResolvedNull st => if Http.ok st then Some None else None
  end.

(** [R] relates the state a handler starts in to the state at its [await]
    or return, and the state its request settles in to the state it
    leaves. *)
Definition throughout {A} (R : State -> State -> Prop) (s : State)
  (a : Async A) : Prop :=
  match a with
  | Return s1 => R s s1
  | Await s1 _ k => R s s1 /\ forall r s', R s' (k r s')
  end.

(** The fields no request handler writes. *)
Definition keepsInput (s s1 : State) : Prop :=
  q s1 = q s /\ status s1 = status s /\ meta s1 = meta s.

(** The fields the health check does not write. *)
Definition keepsSession (s s1 : State) : Prop :=
  q s1 = q s /\ result s1 = result s /\ signal s1 = signal s
  /\ lucky s1 = lucky s /\ loading s1 = loading s.

End View.

(* ================================================================== *)
(** * The two earlier versions of the page *)
(* ================================================================== *)

(** The version that calls the upstream directly and validates the query,
    but has neither the guard on the API base in its handlers nor the
    loading flag around a search. *)
Module Draft.
Import Page.

(** /^[a-zA-Z0-9 .-]+$/ *)
Definition inClass (c : codeunit) : bool :=
  between 97 122 c          (* a-z *)
  || between 65 90 c        (* A-Z *)
  || between 48 57 c        (* 0-9 *)
  || (c =? 32) || (c =? 46) || (c =? 45).

Definition validateQuery (input : jsstring) : option jsstring :=
  let trimmed := trim input in
  if negb (truthy trimmed) then Some (lit "Query cannot be empty.")
  else if 50 <? N.of_nat (List.length trimmed) then Some (lit "Query too long.")
  else if negb (test_class_plus inClass trimmed)
  then Some (lit "Query contains invalid characters.")
  else None.

Section Home.
Variable base : option jsstring.

Definition performSearch (query : jsstring) (s : State)
  : Async SearchResult :=
  let s := setResult None s in
  let s := setSignal None s in
  let s := setLucky None s in
  let s := setError None s in
  let catch := setError (Some (lit "Search failed. Please try again.")) in
  match encodeURIComponent query with
  | None => Return (catch s)
  | Some enc =>
      Await s (Http.interpolate base ++ lit "/search?q=" ++ enc)
        (fun r s =>
           match r with
           | Rejected => catch s
           | Resolved st body =>
               if negb (Http.ok st) then catch s
               else match body with
                    | None => catch s
                    | Some data => setResult (Some data) s
                    end
           | ResolvedNull st =>
               if negb (Http.ok st) then catch s else setResult None s
           end)
  end.

Definition onSearch (s : State) : Async SearchResult :=
  let validationError := validateQuery (q s) in
  match validationError with
  | Some message => Return (setError (Some message) s)
  | None => performSearch (q s) s
  end.

Definition getSignal (s : State) : Async Signal :=
  match result s with
  | None => Return s
  | Some result =>
      let s := setLoading true s in
      let s := setSignal None s in
      let s := setLucky None s in
      let s := setError None s in
      let sym := selectSymbol result in
      let catch := setError (Some (lit "Failed to fetch signal.")) in
      let finally := setLoading false in
      match encodeURIComponent sym with
      | None => Return (finally (catch s))
      | Some enc =>
          Await s (Http.interpolate base ++ lit "/signal/" ++ enc)
            (fun r s =>
               finally
                 match r with
                 | Rejected => catch s
                 | Resolved st body =>
                     if negb (Http.ok st) then catch s
                     else match body with
                          | None => catch s
                          | Some data => setSignal (Some data) s
                          end
                 | ResolvedNull st =>
                     if negb (Http.ok st) then catch s else setSignal None s
                 end)
      end
  end.

Definition feelingLucky (s : State) : Async LuckyResponse :=
  let s := setLoading true s in
  let s := setSignal None s in
  let s := setLucky None s in
  let s := setError None s in
  let catch := setError (Some (lit "Failed to fetch lucky picks.")) in
  let finally := setLoading false in
  Await s (Http.interpolate base ++ lit "/lucky")
    (fun r s =>
       finally
         match r with
         | Rejected => catch s
         | Resolved st body =>
             if negb (Http.ok st) then catch s
             else match body with
                  | None => catch s
                  | Some data => setLucky (Some data) s
                  end
         | ResolvedNull st =>
             if negb (Http.ok st) then catch s else setLucky None s
         end).
End Home.

End Draft.

(** The version that goes through the relays: the page of
    src/app/api/health/route.ts, lines 10-195.  Its [validateQuery] is, but
    for the name of its local variable, the one of page.tsx
    ([Page.validateQuery]). *)
Module Proxy.
Import Page.

(** [performSearch] clears the results, and then either throws before any
    request ([None]) or awaits a request; from the reply it returns the
    SearchResult, or [null] ([Some None]), or throws ([None]). *)
Definition performSearch (query : jsstring) (s : State)
  : State
    * option (jsstring * (Reply SearchResult -> option (option SearchResult)))
  :=
  let s := setResult None s in
  let s := setSignal None s in
  let s := setLucky None s in
  let s := setError None s in
  match encodeURIComponent query with
  | None => (s, None)
  | Some enc =>
      (s, Some (lit "/api/search?q=" ++ enc,
                fun r =>
                  match r with
                  | Rejected => None
                  | Resolved st body =>
                      if negb (Http.ok st) then None else option_map Some body
                  | ResolvedNull st =>
                      if negb (Http.ok st) then None else Some None
                  end))
  end.

Definition onSearch (s : State) : Async SearchResult :=
  let ve := validateQuery (q s) in
  match ve with
  | Some message => Return (setError (Some message) s)
  | None =>
      let catch := setError (Some (lit "Search failed. Please try again.")) in
      let finally := setLoading false in
      let query := q s in
      let s := setLoading true s in
      match performSearch query s with
      | (s, None) => Return (finally (catch s))
      | (s, Some (url, returned)) =>
          Await s url
            (fun r s =>
               finally
                 match returned r with
                 | Some data => setResult data s
                 | None => catch s
                 end)
      end
  end.

Definition getSignal (s : State) : Async Signal :=
  match result s with
  | None => Return s
  | Some result =>
      let s := setLoading true s in
      let s := setSignal None s in
      let s := setLucky None s in
      let s := setError None s in
      let sym := selectSymbol result in
      let catch := setError (Some (lit "Failed to fetch signal.")) in
      let finally := setLoading false in
      match encodeURIComponent sym with
      | None => Return (finally (catch s))
      | Some enc =>
          Await s (lit "/api/signal/" ++ enc)
            (fun r s =>
               finally
                 match r with
                 | Rejected => catch s
                 | Resolved st body =>
                     if negb (Http.ok st) then catch s
                     else match body with
                          | None => catch s
                          | Some data => setSignal (Some data) s
                          end
                 | ResolvedNull st =>
                     if negb (Http.ok st) then catch s else setSignal None s
                 end)
      end
  end.

Definition feelingLucky (s : State) : Async LuckyResponse :=
  let s := setLoading true s in
  let s := setSignal None s in
  let s := setLucky None s in
  let s := setError None s in
  let catch := setError (Some (lit "Failed to fetch lucky picks.")) in
  let finally := setLoading false in
  Await s (lit "/api/lucky")
    (fun r s =>
       finally
         match r with
         | Rejected => catch s
         | Resolved st body =>
             if negb (Http.ok st) then catch s
             else match body with
                  | None => catch s
                  | Some data => setLucky (Some data) s
                  end
         | ResolvedNull st =>
             if negb (Http.ok st) then catch s else setLucky None s
         end).

(** Two runs of a handler that differ only in where the request goes:
    the same state at the [await], the same request path after the prefix
    ([front] on one side, [front'] on the other) and the same rest. *)
Definition sameButHost {A} (front front' : jsstring) (a a' : Async A)
  : Prop :=
  match a, a' with
  | Return s, Return s' => s = s'
  | Await s url k, Await s' url' k' =>
      s = s'
      /\ (exists path, url = front ++ path /\ url' = front' ++ path)
      /\ forall r s2, k r s2 = k' r s2
  | _, _ => False
  end.

End Proxy.

(* ================================================================== *)
(** * Vocabulary of the statements on the routes *)
(* ================================================================== *)

Module Routes.
Import Http Relay.

(** The handler of one of the four pass-through routes. *)
Definition passThroughRoute (API_BASE API_KEY : option jsstring)
  (ex : Exchange) : Prop :=
  (exists q, Search.GET API_BASE API_KEY q = Some ex)
  \/ (exists symbol, Signal.GET API_BASE API_KEY symbol = Some ex)
  \/ Lucky.GET API_BASE API_KEY = Some ex
  \/ Health.GET API_BASE = Some ex.

End Routes.

(* ================================================================== *)
(** * Vocabulary of the statements on URL encoding *)
(* ================================================================== *)

Module Encoding.

(** A code unit is a 16-bit number. *)
Definition unit16 (c : codeunit) : Prop := c < 65536.

(** A code point that is not a surrogate. *)
Definition scalar (cp : N) : Prop :=
  isLeadSurrogate cp = false /\ isTrailSurrogate cp = false.

(** No unpaired surrogate (String.prototype.isWellFormed). *)
Definition wellFormed (s : jsstring) : Prop := Forall scalar (codePoints s).

(** The characters of an encoded URI component: the unreserved ones and
    the percent sign of an escape. *)
Definition urlSafe (c : codeunit) : Prop :=
  uriUnreserved c = true \/ c = 37.

End Encoding.

(* ================================================================== *)
(** * Properties *)
(* ================================================================== *)

(** Boolean tests on code units, read as arithmetic. *)
Ltac to_arith :=
  unfold isWhiteSpace, inClass, uriUnreserved, isLeadSurrogate,
    isTrailSurrogate, between in *;
  repeat match goal with
    | H : _ |- _ =>
        first [ rewrite orb_true_iff in H | rewrite andb_true_iff in H
              | rewrite orb_false_iff in H | rewrite andb_false_iff in H
              | rewrite N.leb_le in H | rewrite N.eqb_eq in H
              | rewrite N.ltb_lt in H | rewrite N.leb_gt in H
              | rewrite N.eqb_neq in H | rewrite N.ltb_ge in H ]
    end;
  rewrite ?orb_true_iff, ?andb_true_iff, ?orb_false_iff, ?andb_false_iff,
    ?N.leb_le, ?N.eqb_eq, ?N.ltb_lt, ?N.leb_gt, ?N.eqb_neq, ?N.ltb_ge.

Module JSFacts.

(** ** The built-ins on a few inputs *)
Example lit_AAPL : lit "AAPL" = [65; 65; 80; 76].
Proof. reflexivity. Qed.

Example trim_tesla : trim (lit "  tesla  ") = lit "tesla".
Proof. reflexivity. Qed.

Example trim_no_break_space : trim ([160; 9] ++ lit "a b" ++ [8232]) = lit "a b".
Proof. reflexivity. Qed.

Example toUpperCase_tesla (tbl : N -> list N) :
  toUpperCase tbl (lit "  tesla  ") = lit "  TESLA  ".
Proof. reflexivity. Qed.

Example toUpperCase_sharp_s :
  toUpperCase (fun cp => if cp =? 223 then [83; 83] else [cp]) [223; 97]
  = lit "SSA".
Proof. reflexivity. Qed.

Example encodeURIComponent_spaces :
  encodeURIComponent (lit "  TESLA  ") = Some (lit "%20%20TESLA%20%20").
Proof. reflexivity. Qed.

Example encodeURIComponent_euro :
  encodeURIComponent [8364] = Some (lit "%E2%82%AC").
Proof. reflexivity. Qed.

Example encodeURIComponent_pair :
  encodeURIComponent [55357; 56832] = Some (lit "%F0%9F%98%80").
Proof. reflexivity. Qed.

Example encodeURIComponent_lone_surrogate :
  encodeURIComponent [55357] = None.
Proof. reflexivity. Qed.

(** The class of the regular expression, character by character. *)
Lemma inClass_spec (c : codeunit) :
  inClass c = true <->
  (65 <= c <= 90) \/ (97 <= c <= 122) \/ (48 <= c <= 57)
  \/ c = 32 \/ c = 46 \/ c = 45.
Proof. to_arith. lia. Qed.

Lemma test_class_plus_spec (cls : codeunit -> bool) (s : jsstring) :
  test_class_plus cls s = true <-> s <> [] /\ forall c, In c s -> cls c = true.
Proof.
  destruct s as [|c rest]; simpl.
  - split; [discriminate | intros [H _]; congruence].
  - rewrite andb_true_iff, forallb_forall. split.
    + intros [Hc Hrest]. split; [discriminate|].
      intros x [<-|Hx]; auto.
    + intros [_ H]. split; [apply H; now left | intros x Hx; apply H; now right].
Qed.

Lemma test_class_plus_false (cls : codeunit -> bool) (s : jsstring) :
  s <> [] -> (exists c, In c s /\ cls c = false) -> test_class_plus cls s = false.
Proof.
  intros Hne [c [Hin Hc]].
  destruct (test_class_plus cls s) eqn:E; [|reflexivity].
  apply test_class_plus_spec in E. destruct E as [_ E].
  rewrite (E c Hin) in Hc. discriminate.
Qed.

(** ** [trim] removes white space at the two ends, and nothing else. *)
Lemma dropWhile_split {A} (p : A -> bool) (l : list A) :
  exists pre, l = pre ++ dropWhile p l /\ Forall (fun x => p x = true) pre.
Proof.
  induction l as [|x l [pre [E F]]]; simpl.
  - exists []. split; [reflexivity | constructor].
  - destruct (p x) eqn:Px.
    + exists (x :: pre). split; [simpl; congruence | now constructor].
    + exists []. split; [reflexivity | constructor].
Qed.

Lemma trim_split (s : jsstring) :
  exists pre post,
    s = pre ++ trim s ++ post
    /\ Forall (fun c => isWhiteSpace c = true) pre
    /\ Forall (fun c => isWhiteSpace c = true) post.
Proof.
  unfold trim, trimEnd, trimStart.
  destruct (dropWhile_split isWhiteSpace s) as [pre [E1 F1]].
  destruct (dropWhile_split isWhiteSpace (rev (dropWhile isWhiteSpace s)))
    as [post [E2 F2]].
  exists pre, (rev post). repeat split.
  - rewrite <- rev_app_distr, <- E2, rev_involutive. exact E1.
  - exact F1.
  - apply Forall_rev. exact F2.
Qed.

Lemma trim_units (s : jsstring) (c : codeunit) :
  In c s -> isWhiteSpace c = true \/ In c (trim s).
Proof.
  destruct (trim_split s) as [pre [post [E [Fpre Fpost]]]].
  intros Hin. rewrite E in Hin.
  rewrite Forall_forall in Fpre, Fpost.
  apply in_app_or in Hin. destruct Hin as [Hin|Hin]; [left; auto|].
  apply in_app_or in Hin. destruct Hin as [Hin|Hin]; [right; auto|left; auto].
Qed.

(** ** Strings of Basic Latin and white space *)
Lemma plain_no_surrogate (c : codeunit) :
  plain c -> isLeadSurrogate c = false /\ isTrailSurrogate c = false.
Proof. unfold plain. intros H. to_arith. lia. Qed.

Lemma plain_upperUnit (c : codeunit) : plain c -> plain (upperUnit c).
Proof.
  unfold plain, upperUnit. intros H.
  destruct (between 97 122 c) eqn:L; [|exact H].
  right. to_arith. lia.
Qed.

Lemma upperUnit_idempotent (c : codeunit) :
  upperUnit (upperUnit c) = upperUnit c.
Proof.
  unfold upperUnit.
  destruct (between 97 122 c) eqn:L; [|rewrite L; reflexivity].
  replace (between 97 122 (c - 32)) with false; [reflexivity|].
  symmetry. to_arith. lia.
Qed.

Lemma upperUnit_whiteSpace (c : codeunit) :
  isWhiteSpace (upperUnit c) = isWhiteSpace c.
Proof.
  unfold upperUnit.
  destruct (between 97 122 c) eqn:L; [|reflexivity].
  assert (A : isWhiteSpace c = false) by (to_arith; lia).
  assert (B : isWhiteSpace (c - 32) = false) by (to_arith; lia).
  congruence.
Qed.

Lemma upperUnit_inClass (c : codeunit) :
  inClass c = true -> inClass (upperUnit c) = true.
Proof.
  unfold upperUnit. intros H.
  destruct (between 97 122 c) eqn:L; [|exact H].
  to_arith. lia.
Qed.

Lemma upperCodePoint_plain (tbl : N -> list N) (c : codeunit) :
  plain c -> upperCodePoint tbl c = [upperUnit c].
Proof.
  unfold plain, upperCodePoint, upperUnit. intros H.
  destruct (between 97 122 c) eqn:L; [reflexivity|].
  destruct (c <? 128) eqn:A; [reflexivity|].
  destruct (isWhiteSpace c) eqn:W; [reflexivity|].
  exfalso. destruct H as [H|H]; [discriminate|].
  to_arith. lia.
Qed.

Lemma utf16_plain (c : codeunit) : plain c -> utf16 c = [c].
Proof.
  unfold plain, utf16. intros H.
  replace (c <? 65536) with true; [reflexivity|].
  symmetry. to_arith. lia.
Qed.

Lemma codePoints_no_lead (s : jsstring) :
  Forall (fun c => isLeadSurrogate c = false) s -> codePoints s = s.
Proof.
  induction s as [|c rest IH]; intros F; [reflexivity|].
  inversion F as [|? ? Hc Hrest]; subst.
  destruct rest as [|lo rest']; [reflexivity|].
  change (codePoints (c :: lo :: rest'))
    with (if isLeadSurrogate c && isTrailSurrogate lo
          then pairToCodePoint c lo :: codePoints rest'
          else c :: codePoints (lo :: rest')).
  rewrite Hc. cbn [andb]. rewrite (IH Hrest). reflexivity.
Qed.

Lemma flat_map_singletons {A B} (f : A -> list B) (g : A -> B) (l : list A) :
  Forall (fun x => f x = [g x]) l -> flat_map f l = map g l.
Proof.
  induction 1 as [|x l Hx _ IH]; simpl; [reflexivity|].
  rewrite Hx, IH. reflexivity.
Qed.

(** On Basic Latin and white space [toUpperCase] works unit by unit,
    whatever the rest of the case table. *)
Lemma toUpperCase_plain (tbl : N -> list N) (s : jsstring) :
  Forall plain s -> toUpperCase tbl s = map upperUnit s.
Proof.
  intros F. unfold toUpperCase.
  rewrite codePoints_no_lead
    by (eapply Forall_impl; [|exact F]; intros c Hc;
        apply plain_no_surrogate; exact Hc).
  rewrite (flat_map_singletons (upperCodePoint tbl) upperUnit)
    by (eapply Forall_impl; [|exact F]; intros c Hc;
        apply upperCodePoint_plain; exact Hc).
  assert (U : Forall (fun c => utf16 c = [c]) (map upperUnit s)).
  { apply Forall_forall. intros c Hc. apply in_map_iff in Hc.
    destruct Hc as [c0 [<- Hc0]]. apply utf16_plain, plain_upperUnit.
    rewrite Forall_forall in F. auto. }
  etransitivity; [exact (flat_map_singletons utf16 (fun c => c) _ U)|].
  apply map_id.
Qed.

Lemma Forall_plain_upper (s : jsstring) :
  Forall plain s -> Forall plain (map upperUnit s).
Proof.
  intros F. apply Forall_forall. intros c Hc. apply in_map_iff in Hc.
  destruct Hc as [c0 [<- Hc0]]. apply plain_upperUnit.
  rewrite Forall_forall in F. auto.
Qed.

(** [trim] commutes with a map that keeps white space white space. *)
Lemma dropWhile_map {A} (p : A -> bool) (f : A -> A) (l : list A) :
  (forall x, p (f x) = p x) ->
  dropWhile p (map f l) = map f (dropWhile p l).
Proof.
  intros Hp. induction l as [|x l IH]; simpl; [reflexivity|].
  rewrite Hp. destruct (p x); [exact IH | reflexivity].
Qed.

Lemma trim_map_upperUnit (s : jsstring) :
  trim (map upperUnit s) = map upperUnit (trim s).
Proof.
  unfold trim, trimEnd, trimStart.
  rewrite (dropWhile_map _ _ _ upperUnit_whiteSpace).
  rewrite <- map_rev.
  rewrite (dropWhile_map _ _ _ upperUnit_whiteSpace).
  rewrite map_rev. reflexivity.
Qed.

(** An unpaired surrogate is the only thing [encodeURIComponent] rejects. *)
Lemma encodeURIComponent_plain (s : jsstring) :
  Forall plain s -> exists enc, encodeURIComponent s = Some enc.
Proof.
  induction 1 as [|c rest Hc _ [enc IH]]; [exists []; reflexivity|].
  destruct (plain_no_surrogate c Hc) as [L T].
  cbn [encodeURIComponent]. rewrite L, T, IH.
  destruct (uriUnreserved c); cbn [option_map]; eauto.
Qed.

End JSFacts.

Module Validation.
Import Page JSFacts.

Lemma validateQuery_empty (input : jsstring) :
  trim input = [] -> validateQuery input = Some (lit "Query cannot be empty.").
Proof. unfold validateQuery. intros ->. reflexivity. Qed.

Lemma validateQuery_too_long (input : jsstring) :
  (50 < List.length (trim input))%nat ->
  validateQuery input = Some (lit "Query too long.").
Proof.
  unfold validateQuery. intros Hlen.
  destruct (trim input) as [|c rest] eqn:E; [simpl in Hlen; lia|].
  cbn [truthy negb].
  replace (50 <? N.of_nat (List.length (c :: rest))) with true;
    [reflexivity|].
  symmetry. apply N.ltb_lt. lia.
Qed.

Lemma validateQuery_invalid (input : jsstring) :
  trim input <> [] -> (List.length (trim input) <= 50)%nat ->
  (exists c, In c (trim input) /\ inClass c = false) ->
  validateQuery input = Some (lit "Query contains invalid characters.").
Proof.
  unfold validateQuery. intros Hne Hlen Hex.
  rewrite (test_class_plus_false inClass _ Hne Hex).
  destruct (trim input) as [|c rest] eqn:E; [congruence|].
  cbn [truthy negb].
  replace (50 <? N.of_nat (List.length (c :: rest))) with false;
    [reflexivity|].
  symmetry. apply N.ltb_ge. lia.
Qed.

Lemma validateQuery_valid (input : jsstring) :
  trim input <> [] -> (List.length (trim input) <= 50)%nat ->
  (forall c, In c (trim input) -> inClass c = true) ->
  validateQuery input = None.
Proof.
  unfold validateQuery. intros Hne Hlen Hall.
  assert (T : test_class_plus inClass (trim input) = true)
    by (apply test_class_plus_spec; auto).
  rewrite T.
  destruct (trim input) as [|c rest] eqn:E; [congruence|].
  cbn [truthy negb].
  replace (50 <? N.of_nat (List.length (c :: rest))) with false;
    [reflexivity|].
  symmetry. apply N.ltb_ge. lia.
Qed.

(** What a successful validation says of the input. *)
Lemma validateQuery_None (input : jsstring) :
  validateQuery input = None ->
  trim input <> [] /\ (List.length (trim input) <= 50)%nat
  /\ forall c, In c (trim input) -> inClass c = true.
Proof.
  unfold validateQuery. intros H.
  destruct (trim input) as [|c rest] eqn:E; [discriminate|].
  cbn [truthy negb] in H.
  destruct (50 <? N.of_nat (List.length (c :: rest))) eqn:L; [discriminate|].
  destruct (test_class_plus inClass (c :: rest)) eqn:T; [|discriminate].
  apply test_class_plus_spec in T. apply N.ltb_ge in L.
  split; [discriminate|]. split; [lia | apply T].
Qed.

(** An accepted input is made of Basic Latin and white space. *)
Lemma validateQuery_plain (input : jsstring) :
  validateQuery input = None -> Forall plain input.
Proof.
  intros H. apply validateQuery_None in H. destruct H as (_ & _ & Hcls).
  apply Forall_forall. intros c Hc.
  destruct (trim_units input c Hc) as [W|T]; [left; exact W|right; auto].
Qed.

(** Upper-casing an accepted input gives an accepted input. *)
Lemma validateQuery_toUpperCase (tbl : N -> list N) (input : jsstring) :
  validateQuery input = None -> validateQuery (toUpperCase tbl input) = None.
Proof.
  intros H. pose proof (validateQuery_plain input H) as F.
  apply validateQuery_None in H. destruct H as (Hne & Hlen & Hcls).
  rewrite (toUpperCase_plain tbl input F).
  apply validateQuery_valid; rewrite trim_map_upperUnit.
  - destruct (trim input); [congruence | discriminate].
  - rewrite length_map. exact Hlen.
  - intros c Hc. apply in_map_iff in Hc. destruct Hc as [c0 [<- Hc0]].
    apply upperUnit_inClass. auto.
Qed.

(** C5. The rules of [validateQuery] are checked in a fixed order and the
    first failure wins: an empty trimmed input gives "Query cannot be
    empty."; otherwise a trimmed input of more than 50 code units gives
    "Query too long."; otherwise a trimmed input with a character outside
    [A-Za-z0-9 .-] gives "Query contains invalid characters."; otherwise
    validation succeeds ([null]).  The empty string and three spaces both
    give "Query cannot be empty.". *)
Theorem validateQuery_first_failure_wins (raw : jsstring) :
  (trim raw = [] ->
   validateQuery raw = Some (lit "Query cannot be empty."))
  /\ (trim raw <> [] -> (50 < List.length (trim raw))%nat ->
      validateQuery raw = Some (lit "Query too long."))
  /\ (trim raw <> [] -> (List.length (trim raw) <= 50)%nat ->
      (exists c, In c (trim raw) /\ inClass c = false) ->
      validateQuery raw = Some (lit "Query contains invalid characters."))
  /\ (trim raw <> [] -> (List.length (trim raw) <= 50)%nat ->
      (forall c, In c (trim raw) -> inClass c = true) ->
      validateQuery raw = None)
  /\ validateQuery ([]) = Some (lit "Query cannot be empty.")
  /\ validateQuery (lit "   ") = Some (lit "Query cannot be empty.").
Proof.
  split; [apply validateQuery_empty|].
  split; [intros _; apply validateQuery_too_long|].
  split; [apply validateQuery_invalid|].
  split; [apply validateQuery_valid|].
  split; reflexivity.
Qed.

(** The four rules at four inputs: three spaces; fifty-one dollar signs;
    "AAPL$"; "  tesla  ". *)
Lemma validateQuery_first_failure_wins_witness :
  validateQuery (lit "   ") = Some (lit "Query cannot be empty.")
  /\ validateQuery (repeat 36 51) = Some (lit "Query too long.")
  /\ validateQuery (lit "AAPL$")
     = Some (lit "Query contains invalid characters.")
  /\ validateQuery (lit "  tesla  ") = None.
Proof.
  split; [|split; [|split]].
  - destruct (validateQuery_first_failure_wins (lit "   ")) as (H & _).
    apply H. reflexivity.
  - destruct (validateQuery_first_failure_wins (repeat 36 51))
      as (_ & H & _).
    apply H.
    + vm_compute. discriminate.
    + vm_compute. lia.
  - destruct (validateQuery_first_failure_wins (lit "AAPL$"))
      as (_ & _ & H & _).
    apply H.
    + vm_compute. discriminate.
    + vm_compute. lia.
    + exists 36. split; [vm_compute; tauto | reflexivity].
  - destruct (validateQuery_first_failure_wins (lit "  tesla  "))
      as (_ & _ & _ & H & _).
    apply H.
    + vm_compute. discriminate.
    + vm_compute. lia.
    + intros c Hc. vm_compute in Hc.
      repeat (destruct Hc as [<-|Hc]; [reflexivity|]). destruct Hc.
Defined.

(** C4, as stated, fails: a character outside the class does not by itself
    give "Query contains invalid characters.".  A TAB before "AAPL" is
    trimmed away and the query is accepted; a lone TAB gives "Query cannot
    be empty."; fifty-one dollar signs give "Query too long.". *)
Lemma validateQuery_outside_class_other_outcomes :
  (In 9 (9 :: lit "AAPL") /\ inClass 9 = false
   /\ validateQuery (9 :: lit "AAPL") = None)
  /\ (In 9 [9] /\ inClass 9 = false
      /\ validateQuery [9] = Some (lit "Query cannot be empty."))
  /\ (In 36 (repeat 36 51) /\ inClass 36 = false
      /\ validateQuery (repeat 36 51) = Some (lit "Query too long.")).
Proof.
  repeat split; try reflexivity; simpl; auto.
Qed.

(** C4, amended.  For every string whose trimmed form is not empty, has at
    most 50 code units and contains a character outside [A-Za-z0-9 .-],
    [validateQuery] gives "Query contains invalid characters.". *)
Theorem validateQuery_invalid_characters (s : jsstring) :
  trim s <> [] -> (List.length (trim s) <= 50)%nat ->
  (exists c, In c (trim s) /\ inClass c = false) ->
  validateQuery s = Some (lit "Query contains invalid characters.").
Proof. apply validateQuery_invalid. Qed.

Lemma validateQuery_invalid_characters_witness :
  trim (lit "AAPL$") <> []
  /\ (List.length (trim (lit "AAPL$")) <= 50)%nat
  /\ (exists c, In c (trim (lit "AAPL$")) /\ inClass c = false)
  /\ validateQuery (lit "AAPL$")
     = Some (lit "Query contains invalid characters.").
Proof.
  assert (H1 : trim (lit "AAPL$") <> []) by (vm_compute; discriminate).
  assert (H2 : (List.length (trim (lit "AAPL$")) <= 50)%nat)
    by (vm_compute; lia).
  assert (H3 : exists c, In c (trim (lit "AAPL$")) /\ inClass c = false)
    by (exists 36; split; [vm_compute; tauto | reflexivity]).
  split; [exact H1|]. split; [exact H2|]. split; [exact H3|].
  exact (validateQuery_invalid_characters (lit "AAPL$") H1 H2 H3).
Defined.

End Validation.

Module Normalization.
Import Page JSFacts Validation.

(** C9. Upper-casing is idempotent on every accepted query, and on the
    trimmed form of every accepted query; "aapl" and "AAPL" both give
    "AAPL". *)
Theorem toUpperCase_idempotent (tbl : N -> list N) :
  (forall x, validateQuery x = None ->
     toUpperCase tbl (toUpperCase tbl x) = toUpperCase tbl x)
  /\ (forall x, validateQuery x = None ->
        toUpperCase tbl (toUpperCase tbl (trim x)) = toUpperCase tbl (trim x))
  /\ toUpperCase tbl (lit "aapl") = lit "AAPL"
  /\ toUpperCase tbl (lit "AAPL") = lit "AAPL".
Proof.
  assert (idem : forall s, Forall plain s ->
            toUpperCase tbl (toUpperCase tbl s) = toUpperCase tbl s).
  { intros s F. rewrite (toUpperCase_plain tbl s F).
    rewrite (toUpperCase_plain tbl _ (Forall_plain_upper s F)).
    rewrite map_map. apply map_ext. intros c. apply upperUnit_idempotent. }
  split; [|split; [|split; reflexivity]].
  - intros x V. apply idem, validateQuery_plain, V.
  - intros x V. apply idem.
    apply validateQuery_None in V. destruct V as (_ & _ & Hcls).
    apply Forall_forall. intros c Hc. right. auto.
Qed.

Lemma toUpperCase_idempotent_witness :
  validateQuery (lit "  tesla  ") = None
  /\ toUpperCase noCaseTable (toUpperCase noCaseTable (lit "  tesla  "))
     = toUpperCase noCaseTable (lit "  tesla  ")
  /\ toUpperCase noCaseTable (toUpperCase noCaseTable (trim (lit "  tesla  ")))
     = toUpperCase noCaseTable (trim (lit "  tesla  ")).
Proof.
  assert (V : validateQuery (lit "  tesla  ") = None) by reflexivity.
  destruct (toUpperCase_idempotent noCaseTable) as (H1 & H2 & _).
  split; [exact V|]. split; [exact (H1 _ V) | exact (H2 _ V)].
Defined.

End Normalization.

Module Selection.
Import Page.

Example selectSymbol_ticker :
  selectSymbol {| query := lit "AAPL"; normalized := lit "AAPL";
                  type := ticker; suggestions := [] |} = lit "AAPL".
Proof. reflexivity. Qed.

Example selectSymbol_company :
  selectSymbol {| query := lit "TESLA"; normalized := lit "TESLA";
                  type := company;
                  suggestions := [lit "TSLA"; lit "TSLA34"] |} = lit "TSLA".
Proof. reflexivity. Qed.

Example selectSymbol_company_no_suggestion :
  selectSymbol {| query := lit "TESLA"; normalized := lit "TESLA";
                  type := company; suggestions := [] |} = lit "TESLA".
Proof. reflexivity. Qed.

(** C3, as stated, fails: for a company whose suggestions start with the
    empty string the sequence is not empty, and the symbol is [normalized],
    not [suggestions[0]]. *)
Lemma selectSymbol_empty_first_suggestion :
  let r := {| query := lit "TESLA"; normalized := lit "TESLA";
              type := company; suggestions := [[]; lit "TSLA"] |} in
  suggestions r <> []
  /\ nth_error (suggestions r) 0 = Some ([])
  /\ selectSymbol r = lit "TESLA"
  /\ Some (selectSymbol r) <> nth_error (suggestions r) 0.
Proof. repeat split; discriminate. Qed.

(** C3, amended.  For every SearchResult [r]: if [r.type] is ticker the
    symbol is [r.normalized]; otherwise (company) it is [r.suggestions[0]]
    whenever the suggestions are not empty and their first element is not
    the empty string, and [r.normalized] when the suggestions are empty or
    start with the empty string. *)
Theorem selectSymbol_rule (r : SearchResult) :
  (type r = ticker -> selectSymbol r = normalized r)
  /\ (type r = company ->
      forall s0 rest, suggestions r = s0 :: rest -> s0 <> [] ->
      selectSymbol r = s0)
  /\ (type r = company ->
      forall rest, suggestions r = [] :: rest ->
      selectSymbol r = normalized r)
  /\ (type r = company -> suggestions r = [] ->
      selectSymbol r = normalized r).
Proof.
  unfold selectSymbol. repeat split.
  - intros ->. reflexivity.
  - intros -> s0 rest -> Hs0. simpl.
    destruct s0; [congruence | reflexivity].
  - intros -> rest ->. reflexivity.
  - intros -> ->. reflexivity.
Qed.

Lemma selectSymbol_rule_witness :
  selectSymbol {| query := lit "AAPL"; normalized := lit "AAPL";
                  type := ticker; suggestions := [] |} = lit "AAPL"
  /\ selectSymbol {| query := lit "TESLA"; normalized := lit "TESLA";
                     type := company;
                     suggestions := [lit "TSLA"; lit "TSLA34"] |} = lit "TSLA"
  /\ selectSymbol {| query := lit "TESLA"; normalized := lit "TESLA";
                     type := company;
                     suggestions := [[]; lit "TSLA"] |} = lit "TESLA"
  /\ selectSymbol {| query := lit "TESLA"; normalized := lit "TESLA";
                     type := company; suggestions := [] |} = lit "TESLA".
Proof.
  split; [|split; [|split]].
  - destruct (selectSymbol_rule
                {| query := lit "AAPL"; normalized := lit "AAPL";
                   type := ticker; suggestions := [] |}) as (H & _).
    apply H. reflexivity.
  - destruct (selectSymbol_rule
                {| query := lit "TESLA"; normalized := lit "TESLA";
                   type := company;
                   suggestions := [lit "TSLA"; lit "TSLA34"] |})
      as (_ & H & _).
    apply (H eq_refl (lit "TSLA") [lit "TSLA34"] eq_refl). discriminate.
  - destruct (selectSymbol_rule
                {| query := lit "TESLA"; normalized := lit "TESLA";
                   type := company;
                   suggestions := [[]; lit "TSLA"] |})
      as (_ & _ & H & _).
    apply (H eq_refl [lit "TSLA"] eq_refl).
  - destruct (selectSymbol_rule
                {| query := lit "TESLA"; normalized := lit "TESLA";
                   type := company; suggestions := [] |})
      as (_ & _ & _ & H).
    apply H; reflexivity.
Defined.

(** C10.  For a company whose suggestions start with the empty string the
    symbol is [normalized]: the fallback is decided by the falsiness of
    [suggestions[0]], not by the emptiness of the sequence; and the signal
    request is made for [normalized]. *)
Theorem empty_first_suggestion_falls_back
  (r : SearchResult) (rest : list jsstring) :
  type r = company -> suggestions r = [] :: rest ->
  selectSymbol r = normalized r
  /\ forall (base : option jsstring) (s : State),
       result s = Some r -> not_ base = false ->
       dispatched (getSignal base s)
       = option_map (fun enc => Http.interpolate base ++ lit "/signal/" ++ enc)
                    (encodeURIComponent (normalized r)).
Proof.
  intros Ht Hs.
  assert (E : selectSymbol r = normalized r)
    by (unfold selectSymbol; rewrite Ht, Hs; reflexivity).
  split; [exact E|].
  intros base s Hr Hb. unfold getSignal. rewrite Hr, Hb, E.
  destruct (encodeURIComponent (normalized r)); reflexivity.
Qed.

Lemma empty_first_suggestion_falls_back_witness :
  let r := {| query := lit "TESLA"; normalized := lit "TESLA";
              type := company; suggestions := [[]; lit "TSLA"] |} in
  type r = company /\ suggestions r = [] :: [lit "TSLA"]
  /\ selectSymbol r = normalized r
  /\ dispatched (getSignal (Some (lit "https://api.test"))
                   (setResult (Some r) initial))
     = Some (lit "https://api.test/signal/TESLA").
Proof.
  intros r.
  destruct (empty_first_suggestion_falls_back r [lit "TSLA"] eq_refl eq_refl)
    as [E D].
  split; [reflexivity|]. split; [reflexivity|]. split; [exact E|].
  rewrite (D (Some (lit "https://api.test")) (setResult (Some r) initial)
             eq_refl eq_refl).
  reflexivity.
Defined.

End Selection.

Module Submission.
Import Page JSFacts Validation.

(** C2, as stated, fails: the query sent upstream is the content of the
    input field, upper-cased as it was typed and never trimmed.  Typing
    "  tesla  " and submitting requests /search?q=%20%20TESLA%20%20, not
    /search?q=TESLA. *)
Lemma onSearch_sends_untrimmed_query :
  let base := Some (lit "https://api.test") in
  let s := onChange noCaseTable (lit "  tesla  ") initial in
  validateQuery (q s) = None
  /\ trim (q s) = lit "TESLA"
  /\ dispatched (onSearch base s)
     = Some (lit "https://api.test/search?q=%20%20TESLA%20%20")
  /\ dispatched (onSearch base s)
     <> Some (lit "https://api.test/search?q=TESLA").
Proof. repeat split; discriminate. Qed.

(** C2, amended.  For every raw input that passes validation, its
    upper-cased form (the content of the input field) passes validation
    too, and submitting it requests /search with that upper-cased input
    itself, URL-encoded and not trimmed, as the query: white space at the
    two ends of the input is sent along.  Validation returns no trimmed
    string, only the absence of an error. *)
Theorem onSearch_submits_field_content
  (base : option jsstring) (tbl : N -> list N) (raw : jsstring) (s : State) :
  not_ base = false ->
  validateQuery raw = None ->
  q (onChange tbl raw s) = toUpperCase tbl raw
  /\ validateQuery (toUpperCase tbl raw) = None
  /\ exists enc,
       encodeURIComponent (toUpperCase tbl raw) = Some enc
       /\ dispatched (onSearch base (onChange tbl raw s))
          = Some (Http.interpolate base ++ lit "/search?q=" ++ enc).
Proof.
  intros Hb V.
  pose proof (validateQuery_toUpperCase tbl raw V) as VU.
  split; [reflexivity|]. split; [exact VU|].
  destruct (encodeURIComponent_plain _ (validateQuery_plain _ VU))
    as [enc E].
  exists enc. split; [exact E|].
  unfold onSearch, onChange. cbn [q setQ]. rewrite VU.
  unfold performSearch. rewrite Hb, E. reflexivity.
Qed.

Lemma onSearch_submits_field_content_witness :
  not_ (Some (lit "https://api.test")) = false
  /\ validateQuery (lit "  tesla  ") = None
  /\ q (onChange noCaseTable (lit "  tesla  ") initial) = lit "  TESLA  "
  /\ dispatched (onSearch (Some (lit "https://api.test"))
                   (onChange noCaseTable (lit "  tesla  ") initial))
     = Some (lit "https://api.test/search?q=%20%20TESLA%20%20").
Proof.
  destruct (onSearch_submits_field_content
              (Some (lit "https://api.test")) noCaseTable (lit "  tesla  ")
              initial eq_refl eq_refl) as (Hq & _ & enc & E & D).
  split; [reflexivity|]. split; [reflexivity|].
  split; [rewrite Hq; reflexivity|].
  rewrite D. vm_compute in E. injection E as <-. reflexivity.
Defined.

End Submission.

Module Handlers.
Import Page.

(** The fields a setter leaves alone are read with [cbn]. *)
Ltac fields :=
  cbn [status error q result signal lucky loading meta
       setStatus setError setQ setResult setSignal setLucky setLoading
       setMeta] in *.

(** All the ways a reply is handled. *)
Ltac replies r :=
  destruct r as [|st [data|]|st];
  [| destruct (Http.ok st) | destruct (Http.ok st) | destruct (Http.ok st)];
  cbn [negb]; fields.

Section Loop.
Variable base : option jsstring.
Variable unicodeUpper : N -> list N.

Lemma at_rest (w : World) :
  invariant w -> loading (ui w) = false ->
  Forall wellBehaved (pending w)
  /\ filter userRequest (pending w) = []
  /\ (signal (ui w) = None \/ lucky (ui w) = None).
Proof.
  intros [WB M] L. split; [exact WB|].
  destruct (filter userRequest (pending w)) as [|f [|g rest]].
  - split; [reflexivity | apply M].
  - destruct M as [M _]. congruence.
  - destruct M.
Qed.

Lemma invariant_mount : invariant (mount base).
Proof.
  unfold invariant, mount, checkHealth.
  destruct (not_ base); cbn [launch pending ui filter userRequest].
  - split; [constructor|]. fields. auto.
  - split; [|fields; auto].
    constructor; [|constructor].
    intros r s. replies r; auto.
Qed.

Lemma invariant_onSearch (w : World) :
  invariant w -> loading (ui w) = false ->
  invariant (launch SearchRequest (onSearch base (ui w)) (pending w)).
Proof.
  intros I L. destruct (at_rest w I L) as (WB & F & V).
  unfold invariant, onSearch, performSearch.
  destruct (validateQuery (q (ui w))).
  { cbn [launch pending ui]. rewrite F. fields. auto. }
  destruct (not_ base).
  { cbn [andThen launch pending ui]. rewrite F. fields. auto. }
  destruct (encodeURIComponent (q (ui w)));
    cbn [andThen launch pending ui filter userRequest]; rewrite F.
  - split; [|fields; auto].
    constructor; [|exact WB].
    intros r s. replies r; auto.
  - split; [exact WB|]. fields. auto.
Qed.

Lemma invariant_getSignal (w : World) :
  invariant w -> loading (ui w) = false ->
  invariant (launch SignalRequest (getSignal base (ui w)) (pending w)).
Proof.
  intros I L. destruct (at_rest w I L) as (WB & F & V).
  unfold invariant, getSignal.
  destruct (result (ui w)) as [r0|].
  2:{ cbn [launch pending ui]. rewrite F. auto. }
  destruct (not_ base).
  { cbn [launch pending ui]. rewrite F. fields. auto. }
  destruct (encodeURIComponent (selectSymbol r0));
    cbn [launch pending ui filter userRequest]; rewrite F.
  - split; [|fields; auto].
    constructor; [|exact WB].
    intros r s. replies r; auto.
  - split; [exact WB|]. fields. auto.
Qed.

Lemma invariant_feelingLucky (w : World) :
  invariant w -> loading (ui w) = false ->
  invariant (launch LuckyRequest (feelingLucky base (ui w)) (pending w)).
Proof.
  intros I L. destruct (at_rest w I L) as (WB & F & V).
  unfold invariant, feelingLucky.
  destruct (not_ base);
    cbn [launch pending ui filter userRequest]; rewrite F.
  - split; [exact WB|]. fields. auto.
  - split; [|fields; auto].
    constructor; [|exact WB].
    intros r s. replies r; auto.
Qed.

Lemma filter_middle (before after : list InFlight) (f : InFlight) :
  filter userRequest (before ++ f :: after)
  = filter userRequest before
    ++ (if userRequest f then [f] else [])
    ++ filter userRequest after.
Proof.
  rewrite filter_app. cbn [filter]. destruct (userRequest f); reflexivity.
Qed.

Lemma alone {A} (l1 l2 : list A) (x : A) (P Q : Prop) :
  match l1 ++ x :: l2 with
  | [] => P
  | [_] => Q
  | _ => False
  end -> l1 = [] /\ l2 = [] /\ Q.
Proof.
  destruct l1 as [|a [|b l1]]; destruct l2 as [|c l2]; cbn [app];
    intros H; try contradiction; auto.
Qed.

Lemma invariant_settle (w : World) (before after : list InFlight)
  (f : InFlight) (s' : State) :
  invariant w -> pending w = before ++ f :: after ->
  settles f (ui w) s' ->
  invariant {| ui := s'; pending := before ++ after |}.
Proof.
  intros [WB M] E S. unfold invariant.
  cbn [ui pending]. rewrite E in WB, M.
  assert (WBf : wellBehaved f)
    by (rewrite Forall_forall in WB; apply WB, in_elt).
  split.
  { apply Forall_app in WB. destruct WB as [WB1 WB2].
    apply Forall_app. split; [exact WB1 | inversion WB2; assumption]. }
  rewrite filter_middle in M. rewrite filter_app.
  destruct f as [k|k|k|k]; cbn [userRequest app] in M;
    destruct S as [r ->]; specialize (WBf r (ui w)); cbn beta in WBf.
  - destruct WBf as (-> & -> & ->). exact M.
  - destruct (alone _ _ _ _ _ M) as (-> & -> & _ & Hs & Hl).
    destruct WBf as (-> & -> & _). cbn [app]. auto.
  - destruct (alone _ _ _ _ _ M) as (-> & -> & _ & Hs & Hl).
    destruct WBf as (-> & ->). cbn [app]. auto.
  - destruct (alone _ _ _ _ _ M) as (-> & -> & _ & Hs & Hl).
    destruct WBf as (-> & ->). cbn [app]. auto.
Qed.

Lemma invariant_step (w w' : World) :
  invariant w -> step base unicodeUpper w w' -> invariant w'.
Proof.
  intros I S. destruct S.
  - exact I.
  - apply invariant_onSearch; assumption.
  - apply invariant_getSignal; assumption.
  - apply invariant_feelingLucky; assumption.
  - eapply invariant_settle; eassumption.
Qed.

Lemma invariant_reachable (w : World) :
  reachable base unicodeUpper w -> invariant w.
Proof.
  induction 1 as [|w w' _ IH S]; [apply invariant_mount|].
  eapply invariant_step; eassumption.
Qed.
End Loop.

(** ** The handlers one by one *)

Lemma getSignal_await (base : option jsstring) (s s1 : State)
  (url : jsstring) (k : Reply Signal -> State -> State) :
  getSignal base s = Await s1 url k ->
  (loading s1 = true /\ signal s1 = None /\ lucky s1 = None
   /\ error s1 = None /\ result s1 = result s)
  /\ forall r s', loading (k r s') = false.
Proof.
  unfold getSignal. intros H.
  destruct (result s) as [r0|] eqn:R; [|discriminate].
  destruct (not_ base); [discriminate|].
  destruct (encodeURIComponent (selectSymbol r0)); [|discriminate].
  injection H as <- <- <-. fields. split; [repeat split; auto|].
  intros r s'. reflexivity.
Qed.

Lemma feelingLucky_await (base : option jsstring) (s s1 : State)
  (url : jsstring) (k : Reply LuckyResponse -> State -> State) :
  feelingLucky base s = Await s1 url k ->
  (loading s1 = true /\ signal s1 = None /\ lucky s1 = None
   /\ error s1 = None /\ result s1 = result s)
  /\ forall r s', loading (k r s') = false.
Proof.
  unfold feelingLucky. intros H.
  destruct (not_ base); [discriminate|].
  injection H as <- <- <-. fields. split; [repeat split; auto|].
  intros r s'. reflexivity.
Qed.

Lemma performSearch_await (base : option jsstring) (query : jsstring)
  (s s1 : State) (url : jsstring) (k : Reply SearchResult -> State -> State) :
  performSearch base query s = Await s1 url k ->
  result s1 = None /\ signal s1 = None /\ lucky s1 = None /\ error s1 = None.
Proof.
  unfold performSearch. intros H.
  destruct (not_ base); [discriminate|].
  destruct (encodeURIComponent query); [|discriminate].
  injection H as <- <- <-. fields. auto.
Qed.

Lemma onSearch_await (base : option jsstring)
  (s s1 : State) (url : jsstring) (k : Reply SearchResult -> State -> State) :
  onSearch base s = Await s1 url k ->
  result s1 = None /\ signal s1 = None /\ lucky s1 = None /\ error s1 = None.
Proof.
  unfold onSearch. intros H.
  destruct (validateQuery (q s)); [discriminate|].
  destruct (performSearch base (q s) (setLoading true s))
    as [s2|s2 url2 k2] eqn:P; cbn [andThen] in H; [discriminate|].
  injection H as <- <- <-.
  exact (performSearch_await _ _ _ _ _ _ P).
Qed.

Lemma getSignal_complete (base : option jsstring) (s : State)
  (r : Reply Signal) :
  loading s = false -> loading (complete (getSignal base s) r) = false.
Proof.
  intros L. destruct (getSignal base s) as [s1|s1 url k] eqn:G.
  - unfold getSignal in G.
    destruct (result s) as [r0|]; [|injection G as <-; exact L].
    destruct (not_ base); [injection G as <-; exact L|].
    destruct (encodeURIComponent (selectSymbol r0)); [discriminate|].
    injection G as <-. reflexivity.
  - apply (getSignal_await _ _ _ _ _ G).
Qed.

Lemma feelingLucky_complete (base : option jsstring) (s : State)
  (r : Reply LuckyResponse) :
  loading s = false -> loading (complete (feelingLucky base s) r) = false.
Proof.
  intros L. destruct (feelingLucky base s) as [s1|s1 url k] eqn:G.
  - unfold feelingLucky in G.
    destruct (not_ base); [injection G as <-; exact L|discriminate].
  - apply (feelingLucky_await _ _ _ _ _ G).
Qed.

(** C8.  [getSignal] without a SearchResult does nothing: it returns at
    its guard, no request is dispatched and the state is the one it was
    called in. *)
Theorem getSignal_without_result (base : option jsstring) (s : State) :
  result s = None ->
  getSignal base s = Return s
  /\ dispatched (getSignal base s) = None
  /\ yielded (getSignal base s) = s
  /\ forall r, complete (getSignal base s) r = s.
Proof.
  intros R. unfold getSignal. rewrite R. repeat split.
Qed.

Lemma getSignal_without_result_witness :
  result initial = None
  /\ getSignal (Some (lit "https://api.test")) initial = Return initial
  /\ dispatched (getSignal (Some (lit "https://api.test")) initial) = None.
Proof.
  destruct (getSignal_without_result (Some (lit "https://api.test")) initial
              eq_refl) as (H1 & H2 & _).
  split; [reflexivity|]. split; [exact H1 | exact H2].
Defined.

(** C7.  [getSignal] and [feelingLucky] set [loading] before their request
    and unset it when the request settles, however it settles (rejected
    fetch, status outside 2xx, unreadable body, success) and whatever the
    state then; run from a state where [loading] is false they end with
    [loading] false on every path; and in the event loop of the page
    [loading] is false whenever no user request is in flight. *)
Theorem loading_released (base : option jsstring) :
  (forall s s1 url k, getSignal base s = Await s1 url k ->
     loading s1 = true /\ forall r s', loading (k r s') = false)
  /\ (forall s s1 url k, feelingLucky base s = Await s1 url k ->
        loading s1 = true /\ forall r s', loading (k r s') = false)
  /\ (forall s r, loading s = false ->
        loading (complete (getSignal base s) r) = false)
  /\ (forall s r, loading s = false ->
        loading (complete (feelingLucky base s) r) = false)
  /\ (forall tbl w, reachable base tbl w ->
        filter userRequest (pending w) = [] -> loading (ui w) = false).
Proof.
  split; [|split; [|split; [|split]]].
  - intros s s1 url k G.
    destruct (getSignal_await _ _ _ _ _ G) as [(L & _) K]. auto.
  - intros s s1 url k G.
    destruct (feelingLucky_await _ _ _ _ _ G) as [(L & _) K]. auto.
  - intros s r L. apply getSignal_complete, L.
  - intros s r L. apply feelingLucky_complete, L.
  - intros tbl w R F.
    destruct (invariant_reachable base tbl w R) as [_ M].
    rewrite F in M. apply M.
Qed.

Lemma loading_released_witness :
  let base := Some (lit "https://api.test") in
  let s := setResult (Some tesla) initial in
  loading s = false
  /\ loading (yielded (getSignal base s)) = true
  /\ loading (complete (getSignal base s) Rejected) = false
  /\ loading (complete (getSignal base s) (Resolved 503 None)) = false
  /\ loading (complete (getSignal base s) (Resolved 200 None)) = false
  /\ loading (complete (getSignal base s) (Resolved 200 (Some demoSignal)))
     = false
  /\ loading (yielded (feelingLucky base s)) = true
  /\ loading (complete (feelingLucky base s) (Resolved 200 (Some demoPicks)))
     = false
  /\ loading (ui (mount base)) = false.
Proof.
  intros base s.
  destruct (loading_released base) as (H1 & H2 & H3 & H4 & H5).
  split; [reflexivity|].
  split; [exact (proj1 (H1 s _ _ _ eq_refl))|].
  split; [exact (H3 s Rejected eq_refl)|].
  split; [exact (H3 s (Resolved 503 None) eq_refl)|].
  split; [exact (H3 s (Resolved 200 None) eq_refl)|].
  split; [exact (H3 s (Resolved 200 (Some demoSignal)) eq_refl)|].
  split; [exact (proj1 (H2 s _ _ _ eq_refl))|].
  split; [exact (H4 s (Resolved 200 (Some demoPicks)) eq_refl)|].
  exact (H5 noCaseTable (mount base) (reach_mount base noCaseTable) eq_refl).
Defined.

(** C1, as stated, fails: a signal fetch and a lucky-pick request do not
    discard the SearchResult.  With the result of the example held,
    [getSignal] requests /signal/TSLA with the result still in place; when
    the signal arrives the result and the signal are both held; and
    [feelingLucky] keeps the result as well. *)
Lemma getSignal_keeps_result :
  let base := Some (lit "https://api.test") in
  let s := setResult (Some tesla) initial in
  dispatched (getSignal base s) = Some (lit "https://api.test/signal/TSLA")
  /\ result (yielded (getSignal base s)) = Some tesla
  /\ result (complete (getSignal base s) (Resolved 200 (Some demoSignal)))
     = Some tesla
  /\ signal (complete (getSignal base s) (Resolved 200 (Some demoSignal)))
     = Some demoSignal
  /\ dispatched (feelingLucky base s) = Some (lit "https://api.test/lucky")
  /\ result (yielded (feelingLucky base s)) = Some tesla.
Proof. repeat split. Qed.

(** C1, amended.  A search request starts with the SearchResult, the
    Signal, the LuckyResponse and the error all set to absent.  A signal
    fetch and a lucky-pick request start with the Signal, the LuckyResponse
    and the error set to absent and keep the SearchResult.  In the event
    loop of the page (buttons disabled while [loading], signal and lucky
    buttons shown only with a result) at most one of Signal and
    LuckyResponse is held at any time, and none while a user request is in
    flight. *)
Theorem new_request_clears (base : option jsstring) :
  (forall query s s1 url k, performSearch base query s = Await s1 url k ->
     result s1 = None /\ signal s1 = None /\ lucky s1 = None
     /\ error s1 = None)
  /\ (forall s s1 url k, onSearch base s = Await s1 url k ->
        result s1 = None /\ signal s1 = None /\ lucky s1 = None
        /\ error s1 = None)
  /\ (forall s s1 url k, getSignal base s = Await s1 url k ->
        signal s1 = None /\ lucky s1 = None /\ error s1 = None
        /\ result s1 = result s)
  /\ (forall s s1 url k, feelingLucky base s = Await s1 url k ->
        signal s1 = None /\ lucky s1 = None /\ error s1 = None
        /\ result s1 = result s)
  /\ (forall tbl w, reachable base tbl w ->
        signal (ui w) = None \/ lucky (ui w) = None)
  /\ (forall tbl w, reachable base tbl w ->
        filter userRequest (pending w) <> [] ->
        signal (ui w) = None /\ lucky (ui w) = None).
Proof.
  split; [|split; [|split; [|split; [|split]]]].
  - intros query s s1 url k P. exact (performSearch_await _ _ _ _ _ _ P).
  - intros s s1 url k P. exact (onSearch_await _ _ _ _ _ P).
  - intros s s1 url k G.
    destruct (getSignal_await _ _ _ _ _ G) as [(_ & H) _]. exact H.
  - intros s s1 url k G.
    destruct (feelingLucky_await _ _ _ _ _ G) as [(_ & H) _]. exact H.
  - intros tbl w R.
    destruct (invariant_reachable base tbl w R) as [_ M].
    destruct (filter userRequest (pending w)) as [|f [|g rest]].
    + apply M.
    + left. apply M.
    + destruct M.
  - intros tbl w R F.
    destruct (invariant_reachable base tbl w R) as [_ M].
    destruct (filter userRequest (pending w)) as [|f [|g rest]].
    + congruence.
    + apply M.
    + destruct M.
Qed.

Lemma new_request_clears_witness :
  let base := Some (lit "https://api.test") in
  let held :=
    setSignal (Some demoSignal)
      (setResult (Some tesla) (onChange noCaseTable (lit "tesla") initial)) in
  let typing :=
    {| ui := onChange noCaseTable (lit "tesla") (ui (mount base));
       pending := pending (mount base) |} in
  let searching :=
    launch SearchRequest (onSearch base (ui typing)) (pending typing) in
  (result (yielded (performSearch base (q held) held)) = None
   /\ signal (yielded (performSearch base (q held) held)) = None)
  /\ (result (yielded (onSearch base held)) = None
      /\ signal (yielded (onSearch base held)) = None)
  /\ (signal (yielded (getSignal base held)) = None
      /\ result (yielded (getSignal base held)) = Some tesla)
  /\ (signal (yielded (feelingLucky base held)) = None
      /\ result (yielded (feelingLucky base held)) = Some tesla)
  /\ (signal (ui searching) = None \/ lucky (ui searching) = None)
  /\ filter userRequest (pending searching) <> []
  /\ signal (ui searching) = None /\ lucky (ui searching) = None.
Proof.
  intros base held typing searching.
  destruct (new_request_clears base) as (H1 & H2 & H3 & H4 & H5 & H6).
  assert (R : reachable base noCaseTable searching).
  { apply (reach_step base noCaseTable typing).
    - apply (reach_step base noCaseTable (mount base)).
      + apply reach_mount.
      + apply step_change.
    - apply step_submit. reflexivity. }
  assert (F : filter userRequest (pending searching) <> [])
    by (vm_compute; discriminate).
  split.
  { destruct (H1 (q held) held _ _ _ eq_refl) as (A & B & _). auto. }
  split.
  { destruct (H2 held _ _ _ eq_refl) as (A & B & _). auto. }
  split.
  { destruct (H3 held _ _ _ eq_refl) as (A & _ & _ & B). auto. }
  split.
  { destruct (H4 held _ _ _ eq_refl) as (A & _ & _ & B). auto. }
  split; [exact (H5 noCaseTable searching R)|].
  split; [exact F|].
  exact (H6 noCaseTable searching R F).
Defined.

End Handlers.

Module Utf8Facts.
Import Http Relay.

(** Arithmetic with quotients and remainders by constants. *)
Ltac divlia := zify; Z.to_euclidean_division_equations; lia.

Lemma land_31 (b : N) : N.land b 31 = b mod 32.
Proof. change 31 with (N.ones 5). apply N.land_ones. Qed.

Lemma land_15 (b : N) : N.land b 15 = b mod 16.
Proof. change 15 with (N.ones 4). apply N.land_ones. Qed.

Lemma land_7 (b : N) : N.land b 7 = b mod 8.
Proof. change 7 with (N.ones 3). apply N.land_ones. Qed.

Lemma land_63 (b : N) : N.land b 63 = b mod 64.
Proof. change 63 with (N.ones 6). apply N.land_ones. Qed.

Lemma lor_shiftl_6 (a x : N) :
  x < 64 -> N.lor (N.shiftl a 6) x = a * 64 + x.
Proof.
  intros H. rewrite N.shiftl_mul_pow2. change (2 ^ 6) with 64.
  assert (Z : N.land (a * 64) x = 0).
  { apply N.bits_inj. intros n. rewrite N.land_spec, N.bits_0.
    destruct (N.lt_ge_cases n 6) as [L|G].
    - change 64 with (2 ^ 6). rewrite N.mul_pow2_bits_low by exact L.
      reflexivity.
    - rewrite (N.bits_above_log2 x n); [apply andb_false_r|].
      destruct (N.eq_dec x 0) as [->|Hx]; [cbn; lia|].
      apply N.log2_lt_pow2; [lia|].
      apply N.lt_le_trans with (2 ^ 6); [exact H|].
      apply N.pow_le_mono_r; lia. }
  rewrite <- (N.lxor_lor _ _ Z). symmetry. apply N.add_nocarry_lxor, Z.
Qed.

(** One continuation byte read inside a sequence. *)
Lemma continuation (cp needed lower upper b : N) (rest : list N) :
  between lower upper b = true ->
  decodeFrom (Partial cp needed lower upper) (b :: rest)
  = if needed =? 1 then (cp * 64 + b mod 64) :: decodeFrom Ready rest
    else decodeFrom (Partial (cp * 64 + b mod 64) (needed - 1) 128 191) rest.
Proof.
  intros B. cbn [decodeFrom]. rewrite B, land_63.
  rewrite lor_shiftl_6 by (apply N.mod_lt; lia). reflexivity.
Qed.

Lemma between_true (lo hi b : N) : lo <= b <= hi -> between lo hi b = true.
Proof.
  intros [H1 H2]. unfold between. apply andb_true_iff.
  split; apply N.leb_le; assumption.
Qed.

Lemma between_false (lo hi b : N) : b < lo \/ hi < b -> between lo hi b = false.
Proof.
  intros H. unfold between. apply andb_false_iff.
  destruct H; [left | right]; apply N.leb_gt; assumption.
Qed.

Lemma leadByte_1 (b : N) : b < 128 -> leadByte b = ([b], Ready).
Proof.
  intros H. unfold leadByte.
  replace (b <=? 127) with true by (symmetry; apply N.leb_le; lia).
  reflexivity.
Qed.

Lemma leadByte_2 (b : N) :
  194 <= b <= 223 -> leadByte b = ([], Partial (b mod 32) 1 128 191).
Proof.
  intros H. unfold leadByte.
  replace (b <=? 127) with false by (symmetry; apply N.leb_gt; lia).
  rewrite between_true by lia. rewrite land_31. reflexivity.
Qed.

Lemma leadByte_3 (b : N) :
  224 <= b <= 239 ->
  leadByte b
  = ([], Partial (b mod 16) 2 (if b =? 224 then 160 else 128)
           (if b =? 237 then 159 else 191)).
Proof.
  intros H. unfold leadByte.
  replace (b <=? 127) with false by (symmetry; apply N.leb_gt; lia).
  rewrite (between_false 194 223) by lia.
  rewrite between_true by lia. rewrite land_15. reflexivity.
Qed.

Lemma leadByte_4 (b : N) :
  240 <= b <= 244 ->
  leadByte b
  = ([], Partial (b mod 8) 3 (if b =? 240 then 144 else 128)
           (if b =? 244 then 143 else 191)).
Proof.
  intros H. unfold leadByte.
  replace (b <=? 127) with false by (symmetry; apply N.leb_gt; lia).
  rewrite (between_false 194 223) by lia.
  rewrite (between_false 224 239) by lia.
  rewrite between_true by lia. rewrite land_7. reflexivity.
Qed.

Lemma continuation_last (cp lower upper b : N) (rest : list N) :
  between lower upper b = true ->
  decodeFrom (Partial cp 1 lower upper) (b :: rest)
  = (cp * 64 + b mod 64) :: decodeFrom Ready rest.
Proof. intros B. rewrite continuation by exact B. reflexivity. Qed.

Lemma continuation_2 (cp lower upper b : N) (rest : list N) :
  between lower upper b = true ->
  decodeFrom (Partial cp 2 lower upper) (b :: rest)
  = decodeFrom (Partial (cp * 64 + b mod 64) 1 128 191) rest.
Proof. intros B. rewrite continuation by exact B. reflexivity. Qed.

Lemma continuation_3 (cp lower upper b : N) (rest : list N) :
  between lower upper b = true ->
  decodeFrom (Partial cp 3 lower upper) (b :: rest)
  = decodeFrom (Partial (cp * 64 + b mod 64) 2 128 191) rest.
Proof. intros B. rewrite continuation by exact B. reflexivity. Qed.

Lemma start_1 (b : N) (rest : list N) :
  b < 128 -> decodeFrom Ready (b :: rest) = b :: decodeFrom Ready rest.
Proof.
  intros H.
  change (decodeFrom Ready (b :: rest))
    with (let (out, st') := leadByte b in out ++ decodeFrom st' rest).
  rewrite leadByte_1 by exact H. reflexivity.
Qed.

Lemma start_2 (b : N) (rest : list N) :
  194 <= b <= 223 ->
  decodeFrom Ready (b :: rest)
  = decodeFrom (Partial (b mod 32) 1 128 191) rest.
Proof.
  intros H.
  change (decodeFrom Ready (b :: rest))
    with (let (out, st') := leadByte b in out ++ decodeFrom st' rest).
  rewrite leadByte_2 by exact H. reflexivity.
Qed.

Lemma start_3 (b : N) (rest : list N) :
  224 <= b <= 239 ->
  decodeFrom Ready (b :: rest)
  = decodeFrom (Partial (b mod 16) 2 (if b =? 224 then 160 else 128)
                  (if b =? 237 then 159 else 191)) rest.
Proof.
  intros H.
  change (decodeFrom Ready (b :: rest))
    with (let (out, st') := leadByte b in out ++ decodeFrom st' rest).
  rewrite leadByte_3 by exact H. reflexivity.
Qed.

Lemma start_4 (b : N) (rest : list N) :
  240 <= b <= 244 ->
  decodeFrom Ready (b :: rest)
  = decodeFrom (Partial (b mod 8) 3 (if b =? 240 then 144 else 128)
                  (if b =? 244 then 143 else 191)) rest.
Proof.
  intros H.
  change (decodeFrom Ready (b :: rest))
    with (let (out, st') := leadByte b in out ++ decodeFrom st' rest).
  rewrite leadByte_4 by exact H. reflexivity.
Qed.

(** The decoder reads back what the encoder writes. *)
Lemma decode_scalar (cp : N) (rest : list N) :
  unicodeScalar cp ->
  decodeFrom Ready (utf8 cp ++ rest) = cp :: decodeFrom Ready rest.
Proof.
  intros (Hmax & HL & HT). unfold utf8.
  assert (NS : cp < 55296 \/ 57343 < cp) by (to_arith; lia).
  destruct (cp <? 128) eqn:A.
  { apply N.ltb_lt in A. change ([cp] ++ rest) with (cp :: rest).
    apply start_1, A. }
  apply N.ltb_ge in A. destruct (cp <? 2048) eqn:B.
  { apply N.ltb_lt in B.
    change ([192 + cp / 64; 128 + cp mod 64] ++ rest)
      with ((192 + cp / 64) :: (128 + cp mod 64) :: rest).
    rewrite start_2 by divlia.
    rewrite continuation_last by (apply between_true; divlia).
    f_equal. divlia. }
  apply N.ltb_ge in B. destruct (cp <? 65536) eqn:C.
  { apply N.ltb_lt in C.
    change ([224 + cp / 4096; 128 + (cp / 64) mod 64; 128 + cp mod 64]
            ++ rest)
      with ((224 + cp / 4096) :: (128 + (cp / 64) mod 64)
            :: (128 + cp mod 64) :: rest).
    rewrite start_3 by divlia.
    rewrite continuation_2.
    2:{ destruct (224 + cp / 4096 =? 224) eqn:E1;
          destruct (224 + cp / 4096 =? 237) eqn:E2;
          apply between_true; to_arith; divlia. }
    rewrite continuation_last by (apply between_true; divlia).
    f_equal. divlia. }
  apply N.ltb_ge in C.
  change ([240 + cp / 262144; 128 + (cp / 4096) mod 64;
           128 + (cp / 64) mod 64; 128 + cp mod 64] ++ rest)
    with ((240 + cp / 262144) :: (128 + (cp / 4096) mod 64)
          :: (128 + (cp / 64) mod 64) :: (128 + cp mod 64) :: rest).
  rewrite start_4 by divlia.
  rewrite continuation_3.
  2:{ destruct (240 + cp / 262144 =? 240) eqn:E1;
        destruct (240 + cp / 262144 =? 244) eqn:E2;
        apply between_true; to_arith; divlia. }
  rewrite continuation_2 by (apply between_true; divlia).
  rewrite continuation_last by (apply between_true; divlia).
  f_equal. divlia.
Qed.

Lemma decode_scalars (cps : list N) :
  Forall unicodeScalar cps -> decodeFrom Ready (flat_map utf8 cps) = cps.
Proof.
  induction 1 as [|cp cps H _ IH]; [reflexivity|].
  cbn [flat_map]. rewrite decode_scalar by exact H. rewrite IH. reflexivity.
Qed.

(** A text that does not start with U+FEFF is not written with a byte
    order mark in front. *)
Lemma dropBOM_scalars (cps : list N) :
  nth_error cps 0 <> Some 65279 ->
  dropBOM (flat_map utf8 cps) = flat_map utf8 cps.
Proof.
  destruct cps as [|cp cps]; [reflexivity|]. cbn [nth_error flat_map].
  intros H. assert (Hcp : cp <> 65279) by congruence.
  set (tail := flat_map utf8 cps). clearbody tail.
  assert (skip : forall a b c rest,
             (a = 239 -> b = 187 -> c = 191 -> False) ->
             dropBOM (a :: b :: c :: rest) = a :: b :: c :: rest).
  { intros a b c rest K. cbn [dropBOM].
    destruct (a =? 239) eqn:Ea; [|reflexivity].
    destruct (b =? 187) eqn:Eb; [|reflexivity].
    destruct (c =? 191) eqn:Ec; [|reflexivity].
    exfalso. apply K; apply N.eqb_eq; assumption. }
  unfold utf8.
  destruct (cp <? 128) eqn:A.
  { apply N.ltb_lt in A. cbn [app].
    destruct tail as [|b [|c rest]]; try reflexivity.
    apply skip. lia. }
  apply N.ltb_ge in A. destruct (cp <? 2048) eqn:B.
  { apply N.ltb_lt in B. cbn [app].
    destruct tail as [|c rest]; [reflexivity|].
    apply skip. divlia. }
  apply N.ltb_ge in B. destruct (cp <? 65536) eqn:C.
  { apply N.ltb_lt in C. cbn [app]. apply skip. divlia. }
  apply N.ltb_ge in C. cbn [app]. apply skip. divlia.
Qed.

(** ... and UTF-16 in between. *)
Lemma codePoints_head (c : codeunit) (l : jsstring) :
  isLeadSurrogate c = false -> codePoints (c :: l) = c :: codePoints l.
Proof.
  intros H. destruct l as [|lo l]; [reflexivity|].
  change (codePoints (c :: lo :: l))
    with (if isLeadSurrogate c && isTrailSurrogate lo
          then pairToCodePoint c lo :: codePoints l
          else c :: codePoints (lo :: l)).
  rewrite H. reflexivity.
Qed.

Lemma codePoints_utf16 (cps : list N) :
  Forall unicodeScalar cps -> codePoints (flat_map utf16 cps) = cps.
Proof.
  induction 1 as [|cp cps (Hmax & HL & HT) _ IH]; [reflexivity|].
  cbn [flat_map]. set (tail := flat_map utf16 cps) in *. clearbody tail.
  unfold utf16.
  destruct (cp <? 65536) eqn:A.
  - change ([cp] ++ tail) with (cp :: tail).
    rewrite codePoints_head by exact HL. f_equal. exact IH.
  - apply N.ltb_ge in A.
    set (hi := 55296 + (cp - 65536) / 1024).
    set (lo := 56320 + (cp - 65536) mod 1024).
    change (codePoints ([hi; lo] ++ tail))
      with (if isLeadSurrogate hi && isTrailSurrogate lo
            then pairToCodePoint hi lo :: codePoints tail
            else hi :: codePoints (lo :: tail)).
    assert (Hhi : isLeadSurrogate hi = true)
      by (apply between_true; unfold hi; divlia).
    assert (Hlo : isTrailSurrogate lo = true)
      by (apply between_true; unfold lo; divlia).
    rewrite Hhi, Hlo. cbn [andb]. f_equal; [|exact IH].
    unfold pairToCodePoint, hi, lo. divlia.
Qed.

Lemma scalarValue_scalars (cps : list N) :
  Forall unicodeScalar cps -> map scalarValue cps = cps.
Proof.
  induction 1 as [|cp cps (_ & HL & HT) _ IH]; [reflexivity|].
  cbn [map]. unfold scalarValue at 1. rewrite HL, HT, IH. reflexivity.
Qed.

(** Decoding UTF-8 without byte order mark and encoding the text again
    gives the bytes back. *)
Lemma utf8_round_trip (b : list N) :
  plainUtf8 b -> utf8Encode (utf8Decode b) = b.
Proof.
  intros (cps & -> & F & NB). unfold utf8Encode, utf8Decode.
  rewrite dropBOM_scalars by exact NB.
  rewrite decode_scalars by exact F.
  rewrite codePoints_utf16 by exact F.
  rewrite scalarValue_scalars by exact F. reflexivity.
Qed.

End Utf8Facts.

Module Relays.
Import Http Relay Utf8Facts.

Lemma passThrough_carries (r : Upstream) (b : list N) :
  between 200 599 (status r) = true -> nullBodyStatus (status r) = false ->
  bytes r = Some b ->
  exists resp,
    passThrough (Resolved r) = Some resp
    /\ carries resp r b
    /\ getHeader (lit "Cache-Control") (headers resp) = None.
Proof.
  intros Hrange Hnull Hb. unfold passThrough, text, new_Response.
  rewrite Hb, Hrange, Hnull. cbn [negb option_map].
  eexists. split; [reflexivity|].
  unfold carries, sentBytes. cbn [statusCode body headers].
  split; [|reflexivity].
  split; [reflexivity|]. split; [reflexivity|].
  split; [intros P; rewrite (utf8_round_trip b P); reflexivity|].
  split.
  - intros ct ->. reflexivity.
  - intros ->. reflexivity.
Qed.

(** C6, as stated, fails for the health relay, in its two versions, for
    statuses a Response cannot be built with, and for bodies that are not
    plain UTF-8.  The health route that answers with [Response.json] turns
    an upstream 503 into status 200 with a re-serialized body; the health
    route of src/app/api/health passes the answer through without any cache
    marking; on an upstream 204 the search relay throws: [new Response]
    refuses a body with that status; and the body goes through [r.text()]:
    of a 404 whose seven bytes start with a byte order mark four bytes are
    sent, and a body cut inside a sequence is sent with U+FFFD at its
    end.  The health route that answers with [Response.json] answers the
    JSON body 1e400 with the serialization of the parsed number, an
    infinity, which is written null. *)
Lemma health_relay_not_verbatim_or_unmarked :
  let base := Some (lit "https://api.test") in
  let key := Some (lit "k") in
  (answer (HealthNoStore.GET base) (Resolved down)
   = Some {| statusCode := 200;
             headers := [(lit "Cache-Control", lit "no-store");
                         (lit "content-type", lit "application/json")];
             body := BodyJson (JObject [(lit "status", JString (lit "down"))])
          |}
   /\ status down = 503)
  /\ (option_map headers (answer (Health.GET base) (Resolved down))
      = Some [(lit "Content-Type", lit "application/json")]
      /\ getHeader (lit "Cache-Control")
           [(lit "Content-Type", lit "application/json")] = None)
  /\ answer (Search.GET base key (Some (lit "TESLA"))) (Resolved noContent)
     = None
  /\ (bytes marked = Some ([239; 187; 191] ++ lit "oops")
      /\ option_map statusCode
           (answer (Search.GET base key (Some (lit "TESLA")))
              (Resolved marked)) = Some 404
      /\ option_map sentBytes
           (answer (Search.GET base key (Some (lit "TESLA")))
              (Resolved marked)) = Some (Some (lit "oops")))
  /\ (bytes cut = Some (lit "caf" ++ [195])
      /\ option_map sentBytes
           (answer (Search.GET base key (Some (lit "TESLA")))
              (Resolved cut)) = Some (Some (lit "caf" ++ [239; 191; 189])))
  /\ (bytes huge = Some (lit "1e400")
      /\ option_map body (answer (HealthNoStore.GET base) (Resolved huge))
         = Some (BodyJson (JNumber PlusInfinity))
      /\ written (JNumber PlusInfinity) = JNull).
Proof. repeat split. Qed.

(** C6, amended.  For every upstream answer whose status is in 200..599
    and is not a null-body status (204, 205, 304) and whose body can be
    read: the search, signal and lucky relays and the health relay of
    src/app/api/health return a response with the upstream status, with
    the upstream content type, application/json exactly when the upstream
    has none, and with the decoded upstream body as body, which is sent
    as the upstream bytes verbatim whenever these are UTF-8 that does not
    start with a byte order mark; the response of that health relay
    carries no cache marking.  The health route that answers with
    [Response.json] instead answers any upstream JSON body, whatever the
    upstream status, with status 200, the serialization of the parsed
    JSON value as body, a JSON content type and Cache-Control: no-store. *)
Theorem relays_pass_through
  (API_BASE API_KEY : option jsstring) (r : Upstream) :
  (forall b,
     between 200 599 (status r) = true -> nullBodyStatus (status r) = false ->
     bytes r = Some b ->
     (forall q ex, Search.GET API_BASE API_KEY q = Some ex ->
        exists resp, respond ex (Resolved r) = Some resp /\ carries resp r b)
     /\ (forall symbol ex, Signal.GET API_BASE API_KEY symbol = Some ex ->
           exists resp, respond ex (Resolved r) = Some resp
                        /\ carries resp r b)
     /\ (forall ex, Lucky.GET API_BASE API_KEY = Some ex ->
           exists resp, respond ex (Resolved r) = Some resp
                        /\ carries resp r b)
     /\ (forall ex, Health.GET API_BASE = Some ex ->
           exists resp, respond ex (Resolved r) = Some resp
                        /\ carries resp r b /\ ~ nonCacheable resp))
  /\ (forall ex data,
        HealthNoStore.GET API_BASE = Some ex -> json r = Some data ->
        exists resp, respond ex (Resolved r) = Some resp
                     /\ statusCode resp = 200
                     /\ body resp = BodyJson data
                     /\ getHeader (lit "Content-Type") (headers resp)
                        = Some (lit "application/json")
                     /\ nonCacheable resp).
Proof.
  split.
  - intros b Hrange Hnull Hb.
    destruct (passThrough_carries r b Hrange Hnull Hb) as (resp & P & C & NC).
    split; [|split; [|split]].
    + intros q ex G. unfold Search.GET in G.
      destruct (encodeURIComponent (nullish q [])); [|discriminate].
      injection G as <-. exists resp. auto.
    + intros symbol ex G. unfold Signal.GET in G.
      destruct (encodeURIComponent symbol); [|discriminate].
      injection G as <-. exists resp. auto.
    + intros ex G. injection G as <-. exists resp. auto.
    + intros ex G. injection G as <-. exists resp.
      split; [exact P|]. split; [exact C|].
      unfold nonCacheable. rewrite NC. discriminate.
  - intros ex data G J. injection G as <-.
    cbn [respond]. unfold HealthNoStore.reserialize. rewrite J.
    eexists. split; [reflexivity|]. repeat split.
Qed.

Lemma down_plainUtf8 : plainUtf8 downBytes.
Proof.
  exists downBytes.
  split; [reflexivity|]. split; [|discriminate].
  repeat (constructor; [repeat split; reflexivity|]). constructor.
Defined.

Lemma relays_pass_through_witness :
  let base := Some (lit "https://api.test") in
  let key := Some (lit "k") in
  between 200 599 (status down) = true
  /\ nullBodyStatus (status down) = false
  /\ bytes down = Some downBytes
  /\ plainUtf8 downBytes
  /\ (exists resp,
        answer (Search.GET base key (Some (lit "TESLA"))) (Resolved down)
        = Some resp
        /\ statusCode resp = 503 /\ sentBytes resp = Some downBytes)
  /\ (exists resp,
        answer (Health.GET base) (Resolved down) = Some resp
        /\ carries resp down downBytes /\ ~ nonCacheable resp)
  /\ (exists resp,
        answer (HealthNoStore.GET base) (Resolved down) = Some resp
        /\ statusCode resp = 200 /\ nonCacheable resp).
Proof.
  intros base key.
  destruct (relays_pass_through base key down) as (P & H).
  destruct (P downBytes eq_refl eq_refl eq_refl) as (S & _ & _ & SH).
  split; [reflexivity|]. split; [reflexivity|]. split; [reflexivity|].
  split; [exact down_plainUtf8|].
  split.
  { destruct (S (Some (lit "TESLA")) _ eq_refl) as (resp & E & St & _ & V & _).
    exists resp.
    split; [exact E|]. split; [exact St | exact (V down_plainUtf8)]. }
  split.
  { destruct (SH _ eq_refl) as (resp & E & C & NC).
    exists resp. auto. }
  destruct (H _ _ eq_refl eq_refl) as (resp & E & St & _ & _ & NC).
  exists resp. auto.
Defined.

End Relays.

(* ================================================================== *)
(** * Further properties of the page and of the relays *)
(* ================================================================== *)

Module ValidationMore.
Import Page JSFacts Validation.

Lemma dropWhile_skip {A} (p : A -> bool) (pre l : list A) :
  Forall (fun x => p x = true) pre -> dropWhile p (pre ++ l) = dropWhile p l.
Proof.
  induction 1 as [|x pre Hx _ IH]; [reflexivity|].
  cbn [app dropWhile]. rewrite Hx. exact IH.
Qed.

Lemma dropWhile_all {A} (p : A -> bool) (l : list A) :
  Forall (fun x => p x = true) l -> dropWhile p l = [].
Proof.
  intros F. rewrite <- (app_nil_r l). rewrite dropWhile_skip by exact F.
  reflexivity.
Qed.

Lemma dropWhile_nil {A} (p : A -> bool) (l : list A) :
  dropWhile p l = [] -> Forall (fun x => p x = true) l.
Proof.
  induction l as [|x l IH]; cbn [dropWhile]; intros H; [constructor|].
  destruct (p x) eqn:Px; [|discriminate].
  constructor; auto.
Qed.

Lemma dropWhile_keep {A} (p : A -> bool) (l post : list A) :
  dropWhile p l <> [] -> dropWhile p (l ++ post) = dropWhile p l ++ post.
Proof.
  induction l as [|x l IH]; cbn [app dropWhile]; intros H; [congruence|].
  destruct (p x); [exact (IH H) | reflexivity].
Qed.

Lemma trimEnd_padding (s post : jsstring) :
  Forall (fun c => isWhiteSpace c = true) post -> trimEnd (s ++ post) = trimEnd s.
Proof.
  intros F. unfold trimEnd. rewrite rev_app_distr.
  rewrite dropWhile_skip by (apply Forall_rev; exact F). reflexivity.
Qed.

Lemma trim_padding (pre s post : jsstring) :
  Forall (fun c => isWhiteSpace c = true) pre ->
  Forall (fun c => isWhiteSpace c = true) post ->
  trim (pre ++ s ++ post) = trim s.
Proof.
  intros Fpre Fpost. unfold trim, trimStart.
  rewrite dropWhile_skip by exact Fpre.
  destruct (dropWhile isWhiteSpace s) as [|c rest] eqn:D.
  - apply dropWhile_nil in D.
    rewrite dropWhile_all by (apply Forall_app; split; assumption).
    reflexivity.
  - rewrite dropWhile_keep by (rewrite D; discriminate).
    rewrite D. apply trimEnd_padding, Fpost.
Qed.

Lemma trim_idempotent (s : jsstring) : trim (trim s) = trim s.
Proof.
  destruct (trim_split s) as (pre & post & E & Fpre & Fpost).
  rewrite E at 2. symmetry. apply trim_padding; assumption.
Qed.

Lemma validateQuery_by_trim (a b : jsstring) :
  trim a = trim b -> validateQuery a = validateQuery b.
Proof. unfold validateQuery. intros ->. reflexivity. Qed.

(** X1.  [validateQuery] looks at the trimmed input only: white space
    added at the two ends of an input, or removed from them, never changes
    its verdict. *)
Theorem validateQuery_ignores_padding (pre s post : jsstring) :
  Forall (fun c => isWhiteSpace c = true) pre ->
  Forall (fun c => isWhiteSpace c = true) post ->
  validateQuery (pre ++ s ++ post) = validateQuery s
  /\ validateQuery (trim s) = validateQuery s.
Proof.
  intros Fpre Fpost. split; apply validateQuery_by_trim.
  - apply trim_padding; assumption.
  - apply trim_idempotent.
Qed.

Lemma validateQuery_ignores_padding_witness :
  Forall (fun c => isWhiteSpace c = true) [9; 160]
  /\ Forall (fun c => isWhiteSpace c = true) [32; 10]
  /\ validateQuery ([9; 160] ++ lit "AAPL$" ++ [32; 10])
     = validateQuery (lit "AAPL$")
  /\ validateQuery (trim (lit "AAPL$")) = validateQuery (lit "AAPL$").
Proof.
  assert (F1 : Forall (fun c => isWhiteSpace c = true) [9; 160])
    by (repeat constructor).
  assert (F2 : Forall (fun c => isWhiteSpace c = true) [32; 10])
    by (repeat constructor).
  split; [exact F1|]. split; [exact F2|].
  exact (validateQuery_ignores_padding [9; 160] (lit "AAPL$") [32; 10] F1 F2).
Defined.

(** Upper-casing Basic Latin unit by unit keeps the class and the white
    space, hence the verdict. *)
Lemma inClass_upperUnit (c : codeunit) : inClass (upperUnit c) = inClass c.
Proof.
  unfold upperUnit. destruct (between 97 122 c) eqn:L; [|reflexivity].
  assert (A : inClass c = true) by (to_arith; lia).
  assert (B : inClass (c - 32) = true) by (to_arith; lia).
  congruence.
Qed.

Lemma test_class_upperUnit (s : jsstring) :
  test_class_plus inClass (map upperUnit s) = test_class_plus inClass s.
Proof.
  destruct s as [|c rest]; [reflexivity|].
  cbn [map test_class_plus]. rewrite inClass_upperUnit. f_equal.
  induction rest as [|d rest IH]; [reflexivity|].
  cbn [map forallb]. rewrite inClass_upperUnit, IH. reflexivity.
Qed.

Lemma validateQuery_upperUnit (s : jsstring) :
  validateQuery (map upperUnit s) = validateQuery s.
Proof.
  unfold validateQuery. rewrite trim_map_upperUnit, test_class_upperUnit.
  rewrite length_map. destruct (trim s); reflexivity.
Qed.

Lemma toUpperCase_ascii (tbl : N -> list N) (s : jsstring) :
  Forall (fun c => c < 128) s -> toUpperCase tbl s = map upperUnit s.
Proof.
  intros F. unfold toUpperCase.
  rewrite codePoints_no_lead
    by (eapply Forall_impl; [|exact F]; cbv beta; intros c Hc;
        to_arith; lia).
  assert (U : Forall (fun c => upperCodePoint tbl c = [upperUnit c]) s).
  { eapply Forall_impl; [|exact F]. cbv beta. intros c Hc.
    unfold upperCodePoint, upperUnit.
    destruct (between 97 122 c); [reflexivity|].
    replace (c <? 128) with true; [reflexivity|].
    symmetry. apply N.ltb_lt, Hc. }
  rewrite (flat_map_singletons _ _ _ U).
  assert (V : Forall (fun c => utf16 c = [c]) (map upperUnit s)).
  { apply Forall_forall. intros c Hc. apply in_map_iff in Hc.
    destruct Hc as [c0 [<- Hc0]]. rewrite Forall_forall in F.
    specialize (F c0 Hc0). unfold utf16, upperUnit.
    destruct (between 97 122 c0).
    - replace (c0 - 32 <? 65536) with true; [reflexivity|].
      symmetry. apply N.ltb_lt. lia.
    - replace (c0 <? 65536) with true; [reflexivity|].
      symmetry. apply N.ltb_lt. lia. }
  etransitivity; [exact (flat_map_singletons utf16 (fun c => c) _ V)|].
  apply map_id.
Qed.

(** X2.  The input field upper-cases what is typed before it is validated;
    for typed text in Basic Latin this never changes the verdict: the
    upper-cased field content is accepted exactly when the typed text would
    have been, and refused with the same message otherwise. *)
Theorem validateQuery_after_onChange
  (tbl : N -> list N) (value : jsstring) (s : State) :
  Forall (fun c => c < 128) value ->
  validateQuery (q (onChange tbl value s)) = validateQuery value.
Proof.
  intros F. unfold onChange. cbn [q setQ].
  rewrite (toUpperCase_ascii tbl value F). apply validateQuery_upperUnit.
Qed.

Lemma validateQuery_after_onChange_witness :
  Forall (fun c => c < 128) (lit " Tesla Inc. ")
  /\ validateQuery (q (onChange noCaseTable (lit " Tesla Inc. ") initial))
     = validateQuery (lit " Tesla Inc. ").
Proof.
  assert (F : Forall (fun c => c < 128) (lit " Tesla Inc. "))
    by (repeat constructor).
  split; [exact F|].
  exact (validateQuery_after_onChange noCaseTable (lit " Tesla Inc. ")
           initial F).
Defined.

End ValidationMore.

Module EncodingFacts.
Import Encoding.

(** Induction that follows the one- or two-unit steps of the UTF-16
    readers. *)
Lemma list_ind_pairs {A} (P : list A -> Prop) :
  P [] -> (forall a, P [a]) ->
  (forall a b l, P l -> P (b :: l) -> P (a :: b :: l)) ->
  forall l, P l.
Proof.
  intros H0 H1 H2 l.
  assert (H : P l /\ forall a, P (a :: l)).
  { induction l as [|b l [IH IH']]; [split; auto|].
    split; [apply IH'|]. intros a. apply H2; auto. }
  apply H.
Qed.

Lemma option_map_defined {A B} (f : A -> B) (o : option A) :
  option_map f o <> None <-> o <> None.
Proof. destruct o; cbn; split; congruence. Qed.

Lemma unreserved_scalar (c : codeunit) : uriUnreserved c = true -> scalar c.
Proof. unfold scalar. intros H. to_arith. lia. Qed.

Lemma pair_scalar (hi lo : codeunit) : scalar (pairToCodePoint hi lo).
Proof. unfold scalar, pairToCodePoint. to_arith. lia. Qed.

Lemma scalar_head (c : N) (l : list N) :
  Forall scalar (c :: l) <-> scalar c /\ Forall scalar l.
Proof.
  split; [intros H; inversion H; auto | intros [H1 H2]; constructor; auto].
Qed.

(** [encodeURIComponent] throws exactly on an unpaired surrogate. *)
Lemma encodeURIComponent_defined (s : jsstring) :
  encodeURIComponent s <> None <-> wellFormed s.
Proof.
  unfold wellFormed. induction s as [|a|a b l IHl IHbl] using list_ind_pairs.
  - cbn. split; [constructor | discriminate].
  - cbn [encodeURIComponent codePoints].
    destruct (uriUnreserved a) eqn:U.
    { cbn. split; [|discriminate]. intros _. constructor; [|constructor].
      apply unreserved_scalar, U. }
    destruct (isLeadSurrogate a) eqn:L.
    { split; [intros H; exfalso; apply H; reflexivity|]. intros H. inversion H as [|? ? [HL _] _].
      congruence. }
    destruct (isTrailSurrogate a) eqn:T.
    { split; [intros H; exfalso; apply H; reflexivity|]. intros H. inversion H as [|? ? [_ HT] _].
      congruence. }
    cbn. split; [|discriminate]. intros _.
    constructor; [split; assumption | constructor].
  - change (codePoints (a :: b :: l))
      with (if isLeadSurrogate a && isTrailSurrogate b
            then pairToCodePoint a b :: codePoints l
            else a :: codePoints (b :: l)).
    change (encodeURIComponent (a :: b :: l))
      with (if uriUnreserved a
            then option_map (cons a) (encodeURIComponent (b :: l))
            else if isLeadSurrogate a then
              if isTrailSurrogate b
              then option_map (app (escapeCodePoint (pairToCodePoint a b)))
                              (encodeURIComponent l)
              else None
            else if isTrailSurrogate a then None
            else option_map (app (escapeCodePoint a))
                            (encodeURIComponent (b :: l))).
    destruct (uriUnreserved a) eqn:U.
    { destruct (unreserved_scalar a U) as [L T]. rewrite L. cbn [andb].
      rewrite option_map_defined, scalar_head, IHbl.
      split; [intros H; split; [split; assumption | exact H] | tauto]. }
    destruct (isLeadSurrogate a) eqn:L; cbn [andb].
    { destruct (isTrailSurrogate b) eqn:Tb.
      - rewrite option_map_defined, scalar_head, IHl.
        split; [intros H; split; [apply pair_scalar | exact H] | tauto].
      - rewrite scalar_head. unfold scalar at 1.
        split; [intros H; exfalso; apply H; reflexivity | intros [[HL _] _]; congruence]. }
    destruct (isTrailSurrogate a) eqn:T.
    { rewrite scalar_head. unfold scalar at 1.
      split; [intros H; exfalso; apply H; reflexivity | intros [[_ HT] _]; congruence]. }
    rewrite option_map_defined, scalar_head, IHbl.
    split; [intros H; split; [split; assumption | exact H] | tauto].
Qed.

(** ** The characters of an encoded component *)
Lemma hexDigit_safe (d : N) : d < 16 -> uriUnreserved (hexDigit d) = true.
Proof.
  unfold hexDigit. intros H. destruct (d <? 10) eqn:D; to_arith; lia.
Qed.

Lemma percent_safe (b : N) : b < 256 -> Forall urlSafe (percent b).
Proof.
  intros H. unfold percent.
  assert (A : b / 16 < 16) by (apply N.Div0.div_lt_upper_bound; lia).
  assert (B : b mod 16 < 16) by (apply N.mod_lt; lia).
  constructor; [right; reflexivity|].
  constructor; [left; apply hexDigit_safe, A|].
  constructor; [left; apply hexDigit_safe, B | constructor].
Qed.

Lemma utf8_bytes (cp : N) :
  cp < 1114112 -> Forall (fun b => b < 256) (utf8 cp).
Proof.
  intros H. unfold utf8.
  assert (M : forall x, x mod 64 < 64) by (intros x; apply N.mod_lt; lia).
  destruct (cp <? 128) eqn:A; [apply N.ltb_lt in A; repeat constructor; lia|].
  destruct (cp <? 2048) eqn:B.
  { apply N.ltb_lt in B.
    assert (cp / 64 < 32) by (apply N.Div0.div_lt_upper_bound; lia).
    pose proof (M cp). repeat constructor; lia. }
  destruct (cp <? 65536) eqn:C.
  { apply N.ltb_lt in C.
    assert (cp / 4096 < 16) by (apply N.Div0.div_lt_upper_bound; lia).
    pose proof (M cp). pose proof (M (cp / 64)). repeat constructor; lia. }
  assert (cp / 262144 < 5) by (apply N.Div0.div_lt_upper_bound; lia).
  pose proof (M cp). pose proof (M (cp / 64)). pose proof (M (cp / 4096)).
  repeat constructor; lia.
Qed.

Lemma escape_safe (cp : N) :
  cp < 1114112 -> Forall urlSafe (escapeCodePoint cp).
Proof.
  intros H. unfold escapeCodePoint.
  pose proof (utf8_bytes cp H) as B.
  induction B as [|b bs Hb _ IH]; cbn [flat_map]; [constructor|].
  apply Forall_app. split; [apply percent_safe, Hb | exact IH].
Qed.

Lemma pair_bound (hi lo : codeunit) :
  isLeadSurrogate hi = true -> isTrailSurrogate lo = true ->
  pairToCodePoint hi lo < 1114112.
Proof. unfold pairToCodePoint. intros H1 H2. to_arith. lia. Qed.

Lemma encodeURIComponent_safe (s : jsstring) :
  Forall unit16 s ->
  forall enc, encodeURIComponent s = Some enc -> Forall urlSafe enc.
Proof.
  assert (step : forall (pre : jsstring) (o : option jsstring),
             Forall urlSafe pre ->
             (forall e, o = Some e -> Forall urlSafe e) ->
             forall enc, option_map (app pre) o = Some enc ->
                         Forall urlSafe enc).
  { intros pre o Hpre Ho enc E. destruct o as [e|]; [|discriminate].
    injection E as <-. apply Forall_app. split; [exact Hpre | apply Ho].
    reflexivity. }
  induction s as [|a|a b l IHl IHbl] using list_ind_pairs; intros F enc E.
  - injection E as <-. constructor.
  - inversion F as [|? ? Ha _]; subst. unfold unit16 in Ha.
    cbn [encodeURIComponent] in E.
    destruct (uriUnreserved a) eqn:U.
    { injection E as <-. constructor; [left; exact U | constructor]. }
    destruct (isLeadSurrogate a); [discriminate|].
    destruct (isTrailSurrogate a); [discriminate|].
    cbn [option_map] in E. injection E as <-. rewrite app_nil_r.
    apply escape_safe. lia.
  - inversion F as [|? ? Ha Fbl]; subst. unfold unit16 in Ha.
    inversion Fbl as [|? ? Hb Fl]; subst.
    change (encodeURIComponent (a :: b :: l))
      with (if uriUnreserved a
            then option_map (cons a) (encodeURIComponent (b :: l))
            else if isLeadSurrogate a then
              if isTrailSurrogate b
              then option_map (app (escapeCodePoint (pairToCodePoint a b)))
                              (encodeURIComponent l)
              else None
            else if isTrailSurrogate a then None
            else option_map (app (escapeCodePoint a))
                            (encodeURIComponent (b :: l))) in E.
    destruct (uriUnreserved a) eqn:U.
    { apply (step [a] (encodeURIComponent (b :: l)));
        [constructor; [left; exact U | constructor] | auto | exact E]. }
    destruct (isLeadSurrogate a) eqn:L.
    { destruct (isTrailSurrogate b) eqn:T; [|discriminate].
      apply (step (escapeCodePoint (pairToCodePoint a b))
               (encodeURIComponent l));
        [apply escape_safe, pair_bound; assumption | auto | exact E]. }
    destruct (isTrailSurrogate a); [discriminate|].
    apply (step (escapeCodePoint a) (encodeURIComponent (b :: l)));
      [apply escape_safe; lia | auto | exact E].
Qed.

(** An encoded component holds no separator of a URL. *)
Lemma urlSafe_no_separator (c : codeunit) :
  urlSafe c ->
  c <> 47 /\ c <> 63 /\ c <> 35 /\ c <> 38 /\ c <> 61 /\ c <> 32.
Proof.
  unfold urlSafe. intros [H| ->]; [to_arith; lia | repeat split; discriminate].
Qed.

End EncodingFacts.

Module Requests.
Import Page View Encoding JSFacts Validation EncodingFacts Handlers.

Lemma plain_unit16 (c : codeunit) : plain c -> unit16 c.
Proof. unfold plain, unit16. intros H. to_arith. lia. Qed.

Lemma not_false_Some (base : option jsstring) :
  not_ base = false -> exists b, base = Some b.
Proof. destruct base as [b|]; [eauto | discriminate]. Qed.

Lemma safe_separators (enc : jsstring) :
  Forall urlSafe enc ->
  forall c, In c enc ->
    c <> 47 /\ c <> 63 /\ c <> 35 /\ c <> 38 /\ c <> 61 /\ c <> 32.
Proof.
  intros F c Hc. rewrite Forall_forall in F.
  apply urlSafe_no_separator. auto.
Qed.

(** X3.  A submitted query leads to a request exactly when it passes
    validation and the API base is configured.  A refused query only sets
    the error to the message of the failed rule; with the base missing the
    only change is the error "API base not configured.", [loading] being
    false again. *)
Theorem onSearch_dispatches_iff (base : option jsstring) (s : State) :
  (dispatched (onSearch base s) <> None
   <-> validateQuery (q s) = None /\ not_ base = false)
  /\ (forall message, validateQuery (q s) = Some message ->
        onSearch base s = Return (setError (Some message) s))
  /\ (validateQuery (q s) = None -> not_ base = true ->
        onSearch base s
        = Return (setLoading false
                    (setError (Some (lit "API base not configured."))
                       (setLoading true s)))).
Proof.
  unfold onSearch, performSearch. split; [|split].
  - destruct (validateQuery (q s)) as [m|] eqn:V.
    { cbn. split; [congruence | intros [H _]; discriminate]. }
    destruct (not_ base) eqn:B.
    { cbn. split; [congruence | intros [_ H]; discriminate]. }
    destruct (encodeURIComponent_plain _ (validateQuery_plain _ V))
      as [enc E].
    rewrite E. cbn. split; [auto | discriminate].
  - intros m ->. reflexivity.
  - intros -> ->. reflexivity.
Qed.

Lemma onSearch_dispatches_iff_witness :
  let base := Some (lit "https://api.test") in
  dispatched (onSearch base (setQ (lit "AAPL") initial)) <> None
  /\ onSearch base (setQ (lit "AAPL$") initial)
     = Return (setError (Some (lit "Query contains invalid characters."))
                 (setQ (lit "AAPL$") initial))
  /\ dispatched (onSearch None (setQ (lit "AAPL") initial)) = None.
Proof.
  intros base. split; [|split].
  - destruct (onSearch_dispatches_iff base (setQ (lit "AAPL") initial))
      as (H & _).
    apply H. split; reflexivity.
  - destruct (onSearch_dispatches_iff base (setQ (lit "AAPL$") initial))
      as (_ & H & _).
    apply H. reflexivity.
  - destruct (onSearch_dispatches_iff None (setQ (lit "AAPL") initial))
      as (_ & _ & H).
    rewrite H by reflexivity. reflexivity.
Defined.

(** X4.  The search request is a GET of the configured base followed by
    /search?q= and the URL-encoded field content; the encoded query is
    made of unreserved characters and percent escapes only, so it holds
    no "&", "#", "=", "/", "?" or space. *)
Theorem onSearch_request_shape
  (base : option jsstring) (s : State) (url : jsstring) :
  dispatched (onSearch base s) = Some url ->
  exists b enc,
    base = Some b
    /\ encodeURIComponent (q s) = Some enc
    /\ url = b ++ lit "/search?q=" ++ enc
    /\ forall c, In c enc ->
         (uriUnreserved c = true \/ c = 37)
         /\ c <> 47 /\ c <> 63 /\ c <> 35 /\ c <> 38 /\ c <> 61 /\ c <> 32.
Proof.
  unfold onSearch, performSearch. intros D.
  destruct (validateQuery (q s)) as [m|] eqn:V; [discriminate|].
  destruct (not_ base) eqn:B; [discriminate|].
  destruct (not_false_Some base B) as [b ->].
  destruct (encodeURIComponent (q s)) as [enc|] eqn:E; [|discriminate].
  cbn in D. injection D as <-.
  exists b, enc.
  split; [reflexivity|]. split; [reflexivity|]. split; [reflexivity|].
  assert (F : Forall urlSafe enc).
  { apply (encodeURIComponent_safe (q s)); [|exact E].
    eapply Forall_impl; [|exact (validateQuery_plain _ V)].
    exact plain_unit16. }
  intros c Hc. split.
  - rewrite Forall_forall in F. apply F, Hc.
  - apply (safe_separators enc F c Hc).
Qed.

Lemma onSearch_request_shape_witness :
  let base := Some (lit "https://api.test") in
  let s := setQ (lit " TESLA INC. ") initial in
  dispatched (onSearch base s)
  = Some (lit "https://api.test/search?q=%20TESLA%20INC.%20")
  /\ exists b enc,
       base = Some b /\ encodeURIComponent (q s) = Some enc
       /\ lit "https://api.test/search?q=%20TESLA%20INC.%20"
          = b ++ lit "/search?q=" ++ enc.
Proof.
  intros base s.
  assert (D : dispatched (onSearch base s)
              = Some (lit "https://api.test/search?q=%20TESLA%20INC.%20"))
    by reflexivity.
  split; [exact D|].
  destruct (onSearch_request_shape base s _ D) as (b & enc & Hb & E & U & _).
  exists b, enc. auto.
Defined.

(** X5.  With a SearchResult held, [getSignal] sends a request exactly when
    the API base is configured and the selected symbol has no unpaired
    surrogate.  A symbol that cannot be encoded is handled like a failed
    request: nothing is sent, the error is "Failed to fetch signal.",
    [loading] is false again and the SearchResult is kept. *)
Theorem getSignal_dispatches_iff
  (base : option jsstring) (s : State) (r : SearchResult) :
  result s = Some r ->
  (dispatched (getSignal base s) <> None
   <-> not_ base = false /\ wellFormed (selectSymbol r))
  /\ (not_ base = false -> ~ wellFormed (selectSymbol r) ->
      exists s1,
        getSignal base s = Return s1
        /\ error s1 = Some (lit "Failed to fetch signal.")
        /\ loading s1 = false /\ signal s1 = None /\ lucky s1 = None
        /\ result s1 = Some r).
Proof.
  intros R. unfold getSignal. rewrite R.
  pose proof (encodeURIComponent_defined (selectSymbol r)) as W.
  split.
  - destruct (not_ base).
    { cbn. split; [congruence | intros [H _]; discriminate]. }
    destruct (encodeURIComponent (selectSymbol r)) as [enc|]; cbn.
    + split; [intros _; split; [reflexivity|apply W; discriminate]
             | discriminate].
    + split; [congruence|]. intros [_ H]. apply W in H. congruence.
  - intros -> NW.
    destruct (encodeURIComponent (selectSymbol r)) as [enc|].
    + exfalso. apply NW, W. discriminate.
    + eexists. split; [reflexivity|]. fields. repeat split; auto.
Qed.

Lemma getSignal_dispatches_iff_witness :
  let base := Some (lit "https://api.test") in
  let broken :=
    {| query := lit "X"; normalized := [55357]; type := ticker;
       suggestions := [] |} in
  result (setResult (Some tesla) initial) = Some tesla
  /\ dispatched (getSignal base (setResult (Some tesla) initial)) <> None
  /\ result (setResult (Some broken) initial) = Some broken
  /\ ~ wellFormed (selectSymbol broken)
  /\ dispatched (getSignal base (setResult (Some broken) initial)) = None.
Proof.
  intros base broken.
  assert (W : wellFormed (selectSymbol tesla)).
  { unfold wellFormed. cbn. repeat constructor. }
  assert (NW : ~ wellFormed (selectSymbol broken)).
  { unfold wellFormed. cbn. intros H. inversion H as [|? ? [HL _] _].
    discriminate. }
  split; [reflexivity|]. split.
  { destruct (getSignal_dispatches_iff base
                (setResult (Some tesla) initial) tesla eq_refl) as (H & _).
    apply H. split; [reflexivity | exact W]. }
  split; [reflexivity|]. split; [exact NW|].
  destruct (getSignal_dispatches_iff base
              (setResult (Some broken) initial) broken eq_refl)
    as (_ & H).
  destruct (H eq_refl NW) as (s1 & E & _). rewrite E. reflexivity.
Defined.

Lemma encodeURIComponent_unreserved (t : jsstring) :
  Forall (fun c => uriUnreserved c = true) t -> encodeURIComponent t = Some t.
Proof.
  induction 1 as [|c t Hc _ IH]; [reflexivity|].
  cbn [encodeURIComponent]. rewrite Hc, IH. reflexivity.
Qed.

(** X6.  The signal request is a GET of the URL made of the configured
    base, /signal/ and the URL-encoded symbol.  For every symbol (a string
    of 16-bit code units) the encoded symbol holds no "/", "?", "#", "&",
    "=" or space.  A symbol made of unreserved characters only is not
    changed by the encoding: in particular the dot segments "." and ".."
    are passed to [fetch] as they are, as <base>/signal/. and
    <base>/signal/.. . *)
Theorem getSignal_request_shape
  (base : option jsstring) (s : State) (r : SearchResult) (url : jsstring) :
  result s = Some r ->
  Forall unit16 (selectSymbol r) ->
  dispatched (getSignal base s) = Some url ->
  exists b enc,
    base = Some b
    /\ encodeURIComponent (selectSymbol r) = Some enc
    /\ url = b ++ lit "/signal/" ++ enc
    /\ (forall c, In c enc ->
          (uriUnreserved c = true \/ c = 37)
          /\ c <> 47 /\ c <> 63 /\ c <> 35 /\ c <> 38 /\ c <> 61 /\ c <> 32)
    /\ (Forall (fun c => uriUnreserved c = true) (selectSymbol r) ->
        enc = selectSymbol r)
    /\ (selectSymbol r = lit "." \/ selectSymbol r = lit ".." ->
        enc = selectSymbol r).
Proof.
  intros R U D. unfold getSignal in D. rewrite R in D.
  destruct (not_ base) eqn:B; [discriminate|].
  destruct (not_false_Some base B) as [b ->].
  destruct (encodeURIComponent (selectSymbol r)) as [enc|] eqn:E;
    [|discriminate].
  cbn in D. injection D as <-.
  exists b, enc.
  split; [reflexivity|]. split; [reflexivity|]. split; [reflexivity|].
  pose proof (encodeURIComponent_safe _ U enc E) as F.
  assert (K : Forall (fun c => uriUnreserved c = true) (selectSymbol r) ->
              enc = selectSymbol r).
  { intros H. rewrite (encodeURIComponent_unreserved _ H) in E.
    congruence. }
  split; [|split; [exact K|]].
  - intros c Hc. split.
    + rewrite Forall_forall in F. apply F, Hc.
    + apply (safe_separators enc F c Hc).
  - intros [H|H]; apply K; rewrite H; repeat constructor.
Qed.

Lemma getSignal_request_shape_witness :
  let base := Some (lit "https://api.test") in
  let odd :=
    {| query := lit "X"; normalized := lit "BRK/B?x#y"; type := ticker;
       suggestions := [] |} in
  let dots :=
    {| query := lit ".."; normalized := lit ".."; type := ticker;
       suggestions := [] |} in
  result (setResult (Some odd) initial) = Some odd
  /\ Forall unit16 (selectSymbol odd)
  /\ dispatched (getSignal base (setResult (Some odd) initial))
     = Some (lit "https://api.test/signal/BRK%2FB%3Fx%23y")
  /\ Forall unit16 (selectSymbol dots)
  /\ dispatched (getSignal base (setResult (Some dots) initial))
     = Some (lit "https://api.test/signal/..").
Proof.
  intros base odd dots.
  assert (U : Forall unit16 (selectSymbol odd)) by (repeat constructor).
  assert (U' : Forall unit16 (selectSymbol dots)) by (repeat constructor).
  assert (D : dispatched (getSignal base (setResult (Some odd) initial))
              = Some (lit "https://api.test/signal/BRK%2FB%3Fx%23y"))
    by reflexivity.
  assert (D' : dispatched (getSignal base (setResult (Some dots) initial))
               = Some (lit "https://api.test/signal/.."))
    by reflexivity.
  destruct (getSignal_request_shape base (setResult (Some odd) initial) odd _
              eq_refl U D)
    as (b & enc & _).
  destruct (getSignal_request_shape base (setResult (Some dots) initial) dots _
              eq_refl U' D')
    as (b' & enc' & _ & E' & _ & _ & _ & K).
  split; [reflexivity|]. split; [exact U|]. split; [exact D|].
  split; [exact U' | exact D'].
Defined.

End Requests.

Module Outcomes.
Import Page View Handlers.

(** X7.  No request handler ever writes the query field, the health
    status or the server metadata, before its request or after it,
    whatever the reply; a signal fetch and a lucky-pick request never write
    the SearchResult either. *)
Theorem handlers_keep_input (base : option jsstring) (s : State) :
  throughout keepsInput s (onSearch base s)
  /\ throughout (fun a b => keepsInput a b /\ result b = result a) s
       (getSignal base s)
  /\ throughout (fun a b => keepsInput a b /\ result b = result a) s
       (feelingLucky base s).
Proof.
  unfold keepsInput. split; [|split].
  - unfold onSearch, performSearch.
    destruct (validateQuery (q s)); [cbn; auto|].
    destruct (not_ base); [cbn; auto|].
    destruct (encodeURIComponent (q s)); cbn; auto.
    split; [auto|]. intros r s'. replies r; auto.
  - unfold getSignal.
    destruct (result s) as [r0|] eqn:R; [|cbn; auto].
    destruct (not_ base); [cbn; auto|].
    destruct (encodeURIComponent (selectSymbol r0)); cbn; auto.
    split; [auto|]. intros r s'. replies r; auto.
  - unfold feelingLucky.
    destruct (not_ base); [cbn; auto|].
    cbn. split; [auto|]. intros r s'. replies r; auto.
Qed.

(** X8.  When a search, signal or lucky request settles, in whatever
    state the page then is: a reply that is accepted (the fetch resolved
    with a 2xx status and a body read as JSON) stores its payload, the JSON
    value [null] included, which stores nothing, and leaves the error as it
    is then; every other reply sets the error to the message of the handler
    and leaves the result field as it is then.  Either way [loading] is
    false and the other result fields are untouched.  Run with no other
    event in between, the request ends with the stored payload and no
    error, or with no result and the message. *)
Theorem request_outcomes (base : option jsstring) (s : State) :
  (forall s1 url k r s', onSearch base s = Await s1 url k ->
     match accepted r with
     | Some v => result (k r s') = v /\ error (k r s') = error s'
     | None =>
         result (k r s') = result s'
         /\ error (k r s') = Some (lit "Search failed. Please try again.")
     end
     /\ signal (k r s') = signal s' /\ lucky (k r s') = lucky s'
     /\ loading (k r s') = false)
  /\ (forall s1 url k r s', getSignal base s = Await s1 url k ->
        match accepted r with
        | Some v => signal (k r s') = v /\ error (k r s') = error s'
        | None =>
            signal (k r s') = signal s'
            /\ error (k r s') = Some (lit "Failed to fetch signal.")
        end
        /\ lucky (k r s') = lucky s' /\ result (k r s') = result s'
        /\ loading (k r s') = false)
  /\ (forall s1 url k r s', feelingLucky base s = Await s1 url k ->
        match accepted r with
        | Some v => lucky (k r s') = v /\ error (k r s') = error s'
        | None =>
            lucky (k r s') = lucky s'
            /\ error (k r s') = Some (lit "Failed to fetch lucky picks.")
        end
        /\ signal (k r s') = signal s' /\ result (k r s') = result s'
        /\ loading (k r s') = false)
  /\ (forall s1 url k r, onSearch base s = Await s1 url k ->
        match accepted r with
        | Some v => result (k r s1) = v /\ error (k r s1) = None
        | None =>
            result (k r s1) = None
            /\ error (k r s1) = Some (lit "Search failed. Please try again.")
        end)
  /\ (forall s1 url k r, getSignal base s = Await s1 url k ->
        match accepted r with
        | Some v => signal (k r s1) = v /\ error (k r s1) = None
        | None =>
            signal (k r s1) = None
            /\ error (k r s1) = Some (lit "Failed to fetch signal.")
        end)
  /\ (forall s1 url k r, feelingLucky base s = Await s1 url k ->
        match accepted r with
        | Some v => lucky (k r s1) = v /\ error (k r s1) = None
        | None =>
            lucky (k r s1) = None
            /\ error (k r s1) = Some (lit "Failed to fetch lucky picks.")
        end).
Proof.
  assert (S : forall s1 url k, onSearch base s = Await s1 url k ->
            (result s1 = None /\ error s1 = None)
            /\ forall r s',
                 match accepted r with
                 | Some v => result (k r s') = v /\ error (k r s') = error s'
                 | None =>
                     result (k r s') = result s'
                     /\ error (k r s')
                        = Some (lit "Search failed. Please try again.")
                 end
                 /\ signal (k r s') = signal s' /\ lucky (k r s') = lucky s'
                 /\ loading (k r s') = false).
  { intros s1 url k H. unfold onSearch, performSearch in H.
    destruct (validateQuery (q s)); [discriminate|].
    destruct (not_ base); [discriminate|].
    destruct (encodeURIComponent (q s)); [|discriminate].
    cbn [andThen] in H. injection H as <- <- <-.
    split; [fields; auto|].
    intros r s'. unfold accepted.
    replies r; cbn [option_map]; repeat split. }
  assert (G : forall s1 url k, getSignal base s = Await s1 url k ->
            (signal s1 = None /\ error s1 = None)
            /\ forall r s',
                 match accepted r with
                 | Some v => signal (k r s') = v /\ error (k r s') = error s'
                 | None =>
                     signal (k r s') = signal s'
                     /\ error (k r s') = Some (lit "Failed to fetch signal.")
                 end
                 /\ lucky (k r s') = lucky s' /\ result (k r s') = result s'
                 /\ loading (k r s') = false).
  { intros s1 url k H. unfold getSignal in H.
    destruct (result s) as [r0|] eqn:R; [|discriminate].
    destruct (not_ base); [discriminate|].
    destruct (encodeURIComponent (selectSymbol r0)); [|discriminate].
    injection H as <- <- <-.
    split; [fields; auto|].
    intros r s'. unfold accepted.
    replies r; cbn [option_map]; repeat split. }
  assert (L : forall s1 url k, feelingLucky base s = Await s1 url k ->
            (lucky s1 = None /\ error s1 = None)
            /\ forall r s',
                 match accepted r with
                 | Some v => lucky (k r s') = v /\ error (k r s') = error s'
                 | None =>
                     lucky (k r s') = lucky s'
                     /\ error (k r s')
                        = Some (lit "Failed to fetch lucky picks.")
                 end
                 /\ signal (k r s') = signal s' /\ result (k r s') = result s'
                 /\ loading (k r s') = false).
  { intros s1 url k H. unfold feelingLucky in H.
    destruct (not_ base); [discriminate|].
    injection H as <- <- <-.
    split; [fields; auto|].
    intros r s'. unfold accepted.
    replies r; cbn [option_map]; repeat split. }
  split; [|split; [|split; [|split; [|split]]]].
  - intros s1 url k r s' H. apply (S _ _ _ H).
  - intros s1 url k r s' H. apply (G _ _ _ H).
  - intros s1 url k r s' H. apply (L _ _ _ H).
  - intros s1 url k r H. destruct (S _ _ _ H) as ((Hr & He) & K).
    specialize (K r s1). destruct (accepted r); rewrite <- ?Hr, <- ?He; tauto.
  - intros s1 url k r H. destruct (G _ _ _ H) as ((Hr & He) & K).
    specialize (K r s1). destruct (accepted r); rewrite <- ?Hr, <- ?He; tauto.
  - intros s1 url k r H. destruct (L _ _ _ H) as ((Hr & He) & K).
    specialize (K r s1). destruct (accepted r); rewrite <- ?Hr, <- ?He; tauto.
Qed.

(** A search accepted with its payload, a signal fetch refused with 503, a
    lucky request that stores [null], and a search that settles after the
    health check has failed: the result and the error of the health check
    are then both held. *)
Lemma request_outcomes_witness :
  let base := Some (lit "https://api.test") in
  let s := setResult (Some tesla) (setQ (lit "TESLA") initial) in
  let late :=
    complete (checkHealth base (yielded (onSearch base s))) Rejected in
  (result (complete (onSearch base s) (Resolved 200 (Some tesla)))
   = Some tesla
   /\ error (complete (onSearch base s) (Resolved 200 (Some tesla))) = None)
  /\ (signal (complete (getSignal base s) (Resolved 503 (Some demoSignal)))
      = None
      /\ error (complete (getSignal base s) (Resolved 503 (Some demoSignal)))
         = Some (lit "Failed to fetch signal."))
  /\ (lucky (complete (feelingLucky base s) (ResolvedNull 200)) = None
      /\ error (complete (feelingLucky base s) (ResolvedNull 200)) = None)
  /\ (forall k, (exists s1 url, onSearch base s = Await s1 url k) ->
        result (k (Resolved 200 (Some tesla)) late) = Some tesla
        /\ error (k (Resolved 200 (Some tesla)) late)
           = Some (lit "Unable to reach API.")).
Proof.
  intros base s late.
  destruct (request_outcomes base s) as (H0 & _ & _ & H1 & H2 & H3).
  split; [|split; [|split]].
  - exact (H1 _ _ _ (Resolved 200 (Some tesla)) eq_refl).
  - exact (H2 _ _ _ (Resolved 503 (Some demoSignal)) eq_refl).
  - exact (H3 _ _ _ (ResolvedNull 200) eq_refl).
  - intros k (s1 & url & E).
    destruct (H0 s1 url k (Resolved 200 (Some tesla)) late E)
      as ((A & B) & _).
    split; [exact A | rewrite B; reflexivity].
Defined.

Lemma or_truthy (v : option jsstring) (d : jsstring) :
  truthy d = true -> truthy (or_ v d) = true.
Proof.
  intros D. destruct v as [x|]; [|exact D].
  unfold or_, or_else. destruct (truthy x) eqn:X; assumption.
Qed.

(** X9.  The health check writes nothing but the status, the metadata and
    the error.  At the moment it settles, or finds the API base missing,
    the health card does not say "Checking...": a 2xx reply whose body is
    read as JSON other than [null] sets the status to the [status] field of
    the body, or to "unknown" when the field is absent or empty, copies
    server_time and version and leaves the error alone; any other outcome,
    the JSON value [null] included, sets the error to "Unable to reach
    API." and leaves the status and the metadata alone. *)
Theorem checkHealth_outcome (base : option jsstring) (s : State) :
  throughout keepsSession s (checkHealth base s)
  /\ (forall r, showsChecking (complete (checkHealth base s) r) = false)
  /\ (forall s1 url k r s', checkHealth base s = Await s1 url k ->
        s1 = s
        /\ showsChecking (k r s') = false
        /\ match accepted r with
           | Some (Some data) =>
               status (k r s')
               = Some (or_ (data_status data) (lit "unknown"))
               /\ meta (k r s')
                  = {| server_time := data_server_time data;
                       version := data_version data |}
               /\ error (k r s') = error s'
           | _ =>
               error (k r s') = Some (lit "Unable to reach API.")
               /\ status (k r s') = status s' /\ meta (k r s') = meta s'
           end).
Proof.
  assert (T : forall d, truthy (or_ (data_status d) (lit "unknown")) = true)
    by (intros d; apply or_truthy; reflexivity).
  unfold keepsSession, showsChecking, checkHealth.
  destruct (not_ base).
  { split; [cbn; auto 6|]. split; [|discriminate].
    intros r. cbn. apply andb_false_r. }
  split; [|split].
  - cbn. split; [auto 6|]. intros r s'. replies r; auto 6.
  - intros r. cbn [complete]. replies r;
      try (cbn; apply andb_false_r).
    cbn [not_]. rewrite T. reflexivity.
  - intros s1 url k r s' H. injection H as <- <- <-.
    split; [reflexivity|]. unfold accepted.
    replies r; cbn [option_map]; (split; [|auto]);
      try (cbn; apply andb_false_r).
    cbn [not_]. rewrite T. reflexivity.
Qed.

Lemma checkHealth_outcome_witness :
  let base := Some (lit "https://api.test") in
  let noStatus :=
    {| data_status := None; data_server_time := None;
       data_version := Some (lit "1.0") |} in
  status (complete (checkHealth base initial) (Resolved 200 (Some noStatus)))
  = Some (lit "unknown")
  /\ showsChecking
       (complete (checkHealth base initial) (Resolved 200 (Some noStatus)))
     = false
  /\ error (complete (checkHealth base initial) Rejected)
     = Some (lit "Unable to reach API.")
  /\ error (complete (checkHealth base initial) (ResolvedNull 200))
     = Some (lit "Unable to reach API.").
Proof.
  intros base noStatus.
  destruct (checkHealth_outcome base initial) as (_ & H2 & H3).
  split; [|split; [|split]].
  - destruct (H3 _ _ _ (Resolved 200 (Some noStatus)) initial eq_refl)
      as (_ & _ & A & _).
    exact A.
  - apply H2.
  - destruct (H3 _ _ _ Rejected initial eq_refl) as (_ & _ & A & _).
    exact A.
  - destruct (H3 _ _ _ (ResolvedNull 200) initial eq_refl) as (_ & _ & A & _).
    exact A.
Defined.

(** X10.  Every request that starts while no health status is held starts
    with "Checking..." back on the health card: the handlers clear the
    error before their request, also the error of a failed health check.
    (The line stays until an event writes the status or the error.) *)
Theorem request_start_shows_checking (base : option jsstring) (s : State) :
  not_ (status s) = true ->
  (forall s1 url k, onSearch base s = Await s1 url k ->
     showsChecking s1 = true)
  /\ (forall s1 url k, getSignal base s = Await s1 url k ->
        showsChecking s1 = true)
  /\ (forall s1 url k, feelingLucky base s = Await s1 url k ->
        showsChecking s1 = true).
Proof.
  intros St. unfold showsChecking. split; [|split]; intros s1 url k H.
  - unfold onSearch, performSearch in H.
    destruct (validateQuery (q s)); [discriminate|].
    destruct (not_ base); [discriminate|].
    destruct (encodeURIComponent (q s)); [|discriminate].
    cbn [andThen] in H. injection H as <- <- <-.
    fields. rewrite St. reflexivity.
  - unfold getSignal in H.
    destruct (result s) as [r0|]; [|discriminate].
    destruct (not_ base); [discriminate|].
    destruct (encodeURIComponent (selectSymbol r0)); [|discriminate].
    injection H as <- <- <-. fields. rewrite St. reflexivity.
  - unfold feelingLucky in H.
    destruct (not_ base); [discriminate|].
    injection H as <- <- <-. fields. rewrite St. reflexivity.
Qed.

Lemma request_start_shows_checking_witness :
  let base := Some (lit "https://api.test") in
  let failed :=
    setQ (lit "AAPL") (complete (checkHealth base initial) Rejected) in
  not_ (status failed) = true
  /\ showsChecking failed = false
  /\ showsChecking (yielded (onSearch base failed)) = true.
Proof.
  intros base failed.
  destruct (request_start_shows_checking base failed eq_refl) as (H & _).
  split; [reflexivity|]. split; [reflexivity|].
  exact (H _ _ _ eq_refl).
Defined.

End Outcomes.

Module EventLoop.
Import Page View Handlers.

Section Loop.
Variable base : option jsstring.
Variable unicodeUpper : N -> list N.

Lemma resultBehind_mount : resultBehind (mount base).
Proof.
  unfold resultBehind, mount, checkHealth.
  destruct (not_ base); cbn [launch pending ui filter userRequest].
  - split; [constructor|]. split; [intros f []|]. cbn. discriminate.
  - split.
    + constructor; [|constructor]. intros r s. replies r; reflexivity.
    + split; [intros f []|]. cbn. discriminate.
Qed.

Lemma resultBehind_onSearch (w : World) :
  invariant w -> resultBehind w -> loading (ui w) = false ->
  resultBehind (launch SearchRequest (onSearch base (ui w)) (pending w)).
Proof.
  intros I (K & _ & V) L. destruct (at_rest w I L) as (_ & F & _).
  specialize (V F).
  unfold resultBehind, onSearch, performSearch.
  destruct (validateQuery (q (ui w))).
  { cbn [launch pending ui]. rewrite F.
    split; [exact K|]. split; [intros f []|]. intros _. exact V. }
  destruct (not_ base).
  { cbn [andThen launch pending ui]. rewrite F.
    split; [exact K|]. split; [intros f []|]. intros _. exact V. }
  destruct (encodeURIComponent (q (ui w)));
    cbn [andThen launch pending ui filter userRequest]; rewrite F.
  - split; [constructor; [exact Logic.I | exact K]|].
    split; [|discriminate].
    intros f [<-|[]]. discriminate.
  - split; [exact K|]. split; [intros f []|]. cbn. discriminate.
Qed.

Lemma resultBehind_getSignal (w : World) :
  invariant w -> resultBehind w -> loading (ui w) = false ->
  resultBehind (launch SignalRequest (getSignal base (ui w)) (pending w)).
Proof.
  intros I (K & _ & V) L. destruct (at_rest w I L) as (_ & F & _).
  specialize (V F).
  unfold resultBehind, getSignal.
  destruct (result (ui w)) as [r0|] eqn:R.
  2:{ cbn [launch pending ui]. rewrite F.
      split; [exact K|]. split; [intros f []|]. intros _. exact V. }
  destruct (not_ base).
  { cbn [launch pending ui]. rewrite F.
    split; [exact K|]. split; [intros f []|]. intros _. exact V. }
  destruct (encodeURIComponent (selectSymbol r0));
    cbn [launch pending ui filter userRequest]; rewrite F.
  - split.
    + constructor; [|exact K]. intros r s. replies r; reflexivity.
    + split; [|discriminate].
      intros f _ _. unfold showsResult. fields. rewrite R. reflexivity.
  - split; [exact K|]. split; [intros f []|]. cbn. discriminate.
Qed.

Lemma resultBehind_feelingLucky (w : World) :
  invariant w -> resultBehind w ->
  result (ui w) <> None -> loading (ui w) = false ->
  resultBehind (launch LuckyRequest (feelingLucky base (ui w)) (pending w)).
Proof.
  intros I (K & _ & V) R L. destruct (at_rest w I L) as (_ & F & _).
  specialize (V F).
  unfold resultBehind, feelingLucky.
  destruct (not_ base);
    cbn [launch pending ui filter userRequest]; rewrite F.
  - split; [exact K|]. split; [intros f []|]. intros _. exact V.
  - split.
    + constructor; [|exact K]. intros r s. replies r; reflexivity.
    + split; [|discriminate].
      intros f _ _. unfold showsResult. fields.
      destruct (result (ui w)); [reflexivity | congruence].
Qed.

Lemma resultBehind_settle (w : World) (before after : list InFlight)
  (f : InFlight) (s' : State) :
  invariant w -> resultBehind w -> pending w = before ++ f :: after ->
  settles f (ui w) s' ->
  resultBehind {| ui := s'; pending := before ++ after |}.
Proof.
  intros [WB M] (K & B & V) E S. unfold resultBehind.
  cbn [ui pending]. rewrite E in WB, M, K, B, V.
  assert (WBf : wellBehaved f)
    by (rewrite Forall_forall in WB; apply WB, in_elt).
  assert (Kf : keepsResult f)
    by (rewrite Forall_forall in K; apply K, in_elt).
  split.
  { apply Forall_app in K. destruct K as [K1 K2].
    apply Forall_app. split; [exact K1 | inversion K2; assumption]. }
  rewrite filter_middle in M, B, V. rewrite filter_app.
  unfold showsSignal, showsLucky, showsResult in *.
  destruct f as [k|k|k|k]; cbn [userRequest app] in M, B, V;
    destruct S as [r ->]; specialize (WBf r (ui w)); cbn beta in WBf;
    cbn [keepsResult] in Kf.
  - destruct WBf as (_ & -> & ->). rewrite Kf. split; [exact B | exact V].
  - destruct (alone _ _ _ _ _ M) as (-> & -> & _ & Hs & Hl).
    destruct WBf as (_ & -> & ->). rewrite Hs, Hl.
    split; [intros f []|]. cbn. discriminate.
  - pose proof (B (SignalRequest k) (in_elt _ _ _) eq_refl) as HR.
    destruct (alone _ _ _ _ _ M) as (-> & -> & _).
    rewrite Kf. split; [intros f []|]. intros _ _. exact HR.
  - pose proof (B (LuckyRequest k) (in_elt _ _ _) eq_refl) as HR.
    destruct (alone _ _ _ _ _ M) as (-> & -> & _).
    rewrite Kf. split; [intros f []|]. intros _ _. exact HR.
Qed.

Lemma invariants_reachable (w : World) :
  reachable base unicodeUpper w -> invariant w /\ resultBehind w.
Proof.
  induction 1 as [|w w' R [I B] S].
  - split; [apply invariant_mount | apply resultBehind_mount].
  - split; [eapply invariant_step; eassumption|].
    destruct S.
    + exact B.
    + apply resultBehind_onSearch; assumption.
    + apply resultBehind_getSignal; assumption.
    + apply resultBehind_feelingLucky; assumption.
    + eapply resultBehind_settle; eassumption.
Qed.
End Loop.

(** X11.  In the event loop of the page at most one search, signal or
    lucky request is in flight at any time, and [loading] is true exactly
    while one is. *)
Theorem one_request_at_a_time
  (base : option jsstring) (tbl : N -> list N) (w : World) :
  reachable base tbl w ->
  (List.length (filter userRequest (pending w)) <= 1)%nat
  /\ (loading (ui w) = true <-> filter userRequest (pending w) <> []).
Proof.
  intros R. destruct (invariant_reachable base tbl w R) as [_ M].
  destruct (filter userRequest (pending w)) as [|f [|g rest]].
  - destruct M as [L _]. cbn. split; [lia|]. rewrite L.
    split; [discriminate | congruence].
  - destruct M as [L _]. cbn. split; [lia|]. rewrite L.
    split; [discriminate | reflexivity].
  - destruct M.
Qed.

(** X12.  In the event loop of the page a signal or lucky picks are never
    shown without the SearchResult card, which carries the two buttons:
    whenever a Signal or a LuckyResponse is held, a SearchResult is. *)
Theorem views_come_with_result
  (base : option jsstring) (tbl : N -> list N) (w : World) :
  reachable base tbl w ->
  showsSignal (ui w) || showsLucky (ui w) = true ->
  showsResult (ui w) = true.
Proof.
  intros R H.
  destruct (invariants_reachable base tbl w R) as [[_ M] (_ & B & V)].
  destruct (filter userRequest (pending w)) as [|f [|g rest]] eqn:F.
  - apply V; [reflexivity | exact H].
  - destruct M as (_ & Hs & Hl). unfold showsSignal, showsLucky in H.
    rewrite Hs, Hl in H. discriminate.
  - destruct M.
Qed.

(** A session: "tesla" is typed and submitted, the search succeeds, the
    signal is asked for and arrives. *)
Lemma reachable_session :
  let base := Some (lit "https://api.test") in
  let w1 :=
    {| ui := onChange noCaseTable (lit "tesla") (ui (mount base));
       pending := pending (mount base) |} in
  let w2 := launch SearchRequest (onSearch base (ui w1)) (pending w1) in
  let w3 :=
    {| ui := complete (onSearch base (ui w1)) (Resolved 200 (Some tesla));
       pending := pending w1 |} in
  let w4 := launch SignalRequest (getSignal base (ui w3)) (pending w3) in
  let w5 :=
    {| ui := complete (getSignal base (ui w3))
               (Resolved 200 (Some demoSignal));
       pending := pending w3 |} in
  reachable base noCaseTable w2
  /\ reachable base noCaseTable w4
  /\ reachable base noCaseTable w5.
Proof.
  intros base w1 w2 w3 w4 w5.
  assert (R1 : reachable base noCaseTable w1).
  { apply (reach_step base noCaseTable (mount base));
      [apply reach_mount | apply step_change]. }
  assert (R2 : reachable base noCaseTable w2).
  { apply (reach_step base noCaseTable w1); [exact R1|].
    apply step_submit. reflexivity. }
  assert (R3 : reachable base noCaseTable w3).
  { apply (reach_step base noCaseTable w2); [exact R2|].
    eapply (step_settle base noCaseTable w2 [] (pending w1));
      [reflexivity|].
    exists (Resolved 200 (Some tesla)). reflexivity. }
  assert (R4 : reachable base noCaseTable w4).
  { apply (reach_step base noCaseTable w3); [exact R3|].
    apply step_getSignal; [discriminate | reflexivity]. }
  assert (R5 : reachable base noCaseTable w5).
  { apply (reach_step base noCaseTable w4); [exact R4|].
    eapply (step_settle base noCaseTable w4 [] (pending w3));
      [reflexivity|].
    exists (Resolved 200 (Some demoSignal)). reflexivity. }
  auto.
Defined.

Lemma one_request_at_a_time_witness :
  let base := Some (lit "https://api.test") in
  let w1 :=
    {| ui := onChange noCaseTable (lit "tesla") (ui (mount base));
       pending := pending (mount base) |} in
  let w2 := launch SearchRequest (onSearch base (ui w1)) (pending w1) in
  reachable base noCaseTable w2
  /\ (List.length (filter userRequest (pending w2)) <= 1)%nat
  /\ loading (ui w2) = true.
Proof.
  intros base w1 w2.
  destruct reachable_session as (R2 & _).
  destruct (one_request_at_a_time base noCaseTable w2 R2) as [Hlen Hload].
  split; [exact R2|]. split; [exact Hlen|].
  apply Hload. vm_compute. discriminate.
Defined.

Lemma views_come_with_result_witness :
  let base := Some (lit "https://api.test") in
  let w1 :=
    {| ui := onChange noCaseTable (lit "tesla") (ui (mount base));
       pending := pending (mount base) |} in
  let w3 :=
    {| ui := complete (onSearch base (ui w1)) (Resolved 200 (Some tesla));
       pending := pending w1 |} in
  let w5 :=
    {| ui := complete (getSignal base (ui w3))
               (Resolved 200 (Some demoSignal));
       pending := pending w3 |} in
  reachable base noCaseTable w5
  /\ showsSignal (ui w5) || showsLucky (ui w5) = true
  /\ showsResult (ui w5) = true.
Proof.
  intros base w1 w3 w5.
  destruct reachable_session as (_ & _ & R5).
  split; [exact R5|]. split; [reflexivity|].
  exact (views_come_with_result base noCaseTable w5 R5 eq_refl).
Defined.




End EventLoop.

Module RelaysMore.
Import Http Relay Routes.

Lemma passThroughRoute_respond (API_BASE API_KEY : option jsstring)
  (ex : Exchange) :
  passThroughRoute API_BASE API_KEY ex -> respond ex = passThrough.
Proof.
  intros [[q G]|[[symbol G]|[G|G]]].
  - unfold Search.GET in G.
    destruct (encodeURIComponent (nullish q [])); [|discriminate].
    injection G as <-. reflexivity.
  - unfold Signal.GET in G.
    destruct (encodeURIComponent symbol); [|discriminate].
    injection G as <-. reflexivity.
  - injection G as <-. reflexivity.
  - injection G as <-. reflexivity.
Qed.

(** X14.  A pass-through relay (search, signal, lucky, health of
    src/app/api/health) produces no response of its own, the handler
    throws, exactly when the upstream fetch rejects, when reading the
    upstream body rejects, or when the upstream status is one [new
    Response] refuses with a body: outside 200..599, or 101, 103, 204,
    205, 304.  When it answers, its response carries a single header,
    Content-Type: no other upstream header is forwarded and the API key is
    not echoed. *)
Theorem relay_throws_iff (API_BASE API_KEY : option jsstring)
  (ex : Exchange) (f : Fetch) :
  passThroughRoute API_BASE API_KEY ex ->
  (respond ex f = None
   <-> f = Rejected
       \/ exists r, f = Resolved r
                    /\ (bytes r = None
                        \/ between 200 599 (status r) = false
                        \/ nullBodyStatus (status r) = true))
  /\ (forall resp, respond ex f = Some resp ->
        exists ct, headers resp = [(lit "Content-Type", ct)]).
Proof.
  intros P. rewrite (passThroughRoute_respond _ _ _ P).
  unfold passThrough, text, new_Response. destruct f as [|r].
  - split; [split; auto | discriminate].
  - destruct (bytes r) as [b|] eqn:Hb; cbn [option_map].
    2:{ split; [|discriminate]. split; [|reflexivity].
        intros _. right. exists r. auto. }
    destruct (between 200 599 (status r)) eqn:B; cbn [negb].
    + destruct (nullBodyStatus (status r)) eqn:Nb.
      * split; [|discriminate]. split; [|reflexivity].
        intros _. right. exists r. auto.
      * split.
        -- split; [discriminate|].
           intros [H|(r' & E & [H|[H|H]])]; [discriminate| | |];
             injection E as <-; congruence.
        -- intros resp [= <-]. cbn. eauto.
    + split; [|discriminate]. split; [|reflexivity].
      intros _. right. exists r. auto.
Qed.

Lemma relay_throws_iff_witness :
  let base := Some (lit "https://api.test") in
  let key := Some (lit "k") in
  passThroughRoute base key
    {| url := lit "https://api.test/lucky"; requestCache := None;
       requestHeaders := apiKeyHeader key; respond := passThrough |}
  /\ answer (Lucky.GET base key) (Resolved noContent) = None
  /\ answer (Lucky.GET base key) (Resolved broken) = None
  /\ answer (Lucky.GET base key) Rejected = None
  /\ exists resp, answer (Lucky.GET base key) (Resolved down) = Some resp.
Proof.
  intros base key.
  set (ex := {| url := lit "https://api.test/lucky"; requestCache := None;
                requestHeaders := apiKeyHeader key;
                respond := passThrough |}).
  assert (P : passThroughRoute base key ex)
    by (right; right; left; reflexivity).
  split; [exact P|]. split; [|split; [|split]].
  - destruct (relay_throws_iff base key ex (Resolved noContent) P) as [H _].
    apply H. right. exists noContent. split; [reflexivity|]. right. right.
    reflexivity.
  - destruct (relay_throws_iff base key ex (Resolved broken) P) as [H _].
    apply H. right. exists broken. split; [reflexivity|]. left.
    reflexivity.
  - destruct (relay_throws_iff base key ex Rejected P) as [H _].
    apply H. left. reflexivity.
  - eexists. reflexivity.
Defined.

(** X15.  The health relay that answers with [Response.json] reads nothing
    of the upstream answer but its parsed JSON body: two upstream answers
    with the same JSON get the same response, whatever their status,
    content type and text; and the handler throws exactly when the fetch
    rejects or the body is not JSON. *)
Theorem health_json_relay_reads_body_only
  (API_BASE : option jsstring) (ex : Exchange) :
  HealthNoStore.GET API_BASE = Some ex ->
  (forall r r', json r = json r' ->
     respond ex (Resolved r) = respond ex (Resolved r'))
  /\ (forall f, respond ex f = None
                <-> f = Rejected \/ exists r, f = Resolved r /\ json r = None).
Proof.
  intros G. injection G as <-. cbn [respond].
  unfold HealthNoStore.reserialize. split.
  - intros r r' ->. reflexivity.
  - intros [|r].
    + split; auto.
    + destruct (json r) as [data|] eqn:J.
      * split; [discriminate|].
        intros [H|(r' & [= <-] & H)]; congruence.
      * split; [|reflexivity]. intros _. right. exists r. auto.
Qed.

Lemma health_json_relay_reads_body_only_witness :
  let base := Some (lit "https://api.test") in
  let up200 :=
    {| status := 200; contentType := None; bytes := Some (lit "x");
       json := json down |} in
  answer (HealthNoStore.GET base) (Resolved down)
  = answer (HealthNoStore.GET base) (Resolved up200)
  /\ answer (HealthNoStore.GET base) (Resolved noContent) = None.
Proof.
  intros base up200.
  destruct (health_json_relay_reads_body_only base _ eq_refl) as [H1 H2].
  split.
  - exact (H1 down up200 eq_refl).
  - apply (H2 (Resolved noContent)). right. exists noContent. auto.
Defined.



End RelaysMore.

Module Versions.
Import Page View Handlers.

Lemma draft_class (c : codeunit) : Draft.inClass c = inClass c.
Proof.
  unfold Draft.inClass, inClass.
  destruct (between 97 122 c), (between 65 90 c); reflexivity.
Qed.

Lemma draft_test (s : jsstring) :
  test_class_plus Draft.inClass s = test_class_plus inClass s.
Proof.
  destruct s as [|c rest]; [reflexivity|].
  cbn [test_class_plus]. rewrite draft_class. f_equal.
  induction rest as [|d rest IH]; [reflexivity|].
  cbn [forallb]. rewrite draft_class, IH. reflexivity.
Qed.

(** X17.  The earlier version of the page that validates with
    /^[a-zA-Z0-9 .-]+$/ gives every input the verdict page.tsx gives it;
    its signal and lucky handlers are, with the API base configured, the
    ones of page.tsx; its search sends the same request and ends in the
    same state for every reply, but never writes [loading]. *)
Theorem draft_agrees_with_page (b : jsstring) (s : State) :
  truthy b = true ->
  (forall input, Draft.validateQuery input = validateQuery input)
  /\ Draft.getSignal (Some b) s = getSignal (Some b) s
  /\ Draft.feelingLucky (Some b) s = feelingLucky (Some b) s
  /\ dispatched (Draft.onSearch (Some b) s) = dispatched (onSearch (Some b) s)
  /\ (forall r, complete (Draft.onSearch (Some b) s) r
                = setLoading (loading s) (complete (onSearch (Some b) s) r))
  /\ throughout (fun a c => loading c = loading a) s
       (Draft.onSearch (Some b) s).
Proof.
  intros T.
  assert (B : not_ (Some b) = false) by (cbn; rewrite T; reflexivity).
  assert (V : forall input, Draft.validateQuery input = validateQuery input).
  { intros input. unfold Draft.validateQuery, validateQuery.
    rewrite draft_test. reflexivity. }
  split; [exact V|].
  split; [unfold Draft.getSignal, getSignal; rewrite B; reflexivity|].
  split; [unfold Draft.feelingLucky, feelingLucky; rewrite B; reflexivity|].
  unfold Draft.onSearch, onSearch, Draft.performSearch, performSearch.
  rewrite V, B.
  destruct (validateQuery (q s)) as [m|].
  { split; [reflexivity|]. split; [|reflexivity].
    intros r. destruct s. reflexivity. }
  fields. destruct (encodeURIComponent (q s)); cbn [andThen dispatched].
  - split; [reflexivity|]. split.
    + intros r. cbn [complete]. destruct s. replies r; reflexivity.
    + cbn. split; [reflexivity|]. intros r s'. replies r; reflexivity.
  - split; [reflexivity|]. split; [|reflexivity].
    intros r. destruct s. reflexivity.
Qed.

Lemma draft_agrees_with_page_witness :
  let b := lit "https://api.test" in
  let s := setQ (lit "AAPL") initial in
  truthy b = true
  /\ Draft.validateQuery (lit "AAPL$") = validateQuery (lit "AAPL$")
  /\ dispatched (Draft.onSearch (Some b) s)
     = Some (lit "https://api.test/search?q=AAPL")
  /\ loading (yielded (Draft.onSearch (Some b) s)) = false
  /\ loading (yielded (onSearch (Some b) s)) = true.
Proof.
  intros b s.
  destruct (draft_agrees_with_page b s eq_refl) as (V & _ & _ & D & _).
  split; [reflexivity|]. split; [apply V|].
  split; [rewrite D; reflexivity|]. split; reflexivity.
Defined.

(** X18.  The version of the page that goes through the relays runs, for
    every state and every reply, as page.tsx does with the API base
    configured: the same state at each [await], the same state after the
    reply, and the same request path, asked of /api instead of the API
    base. *)
Theorem proxy_agrees_with_page (b : jsstring) (s : State) :
  truthy b = true ->
  Proxy.sameButHost (lit "/api") b (Proxy.onSearch s) (onSearch (Some b) s)
  /\ Proxy.sameButHost (lit "/api") b (Proxy.getSignal s)
       (getSignal (Some b) s)
  /\ Proxy.sameButHost (lit "/api") b (Proxy.feelingLucky s)
       (feelingLucky (Some b) s).
Proof.
  intros T.
  assert (B : not_ (Some b) = false) by (cbn; rewrite T; reflexivity).
  split; [|split].
  - unfold Proxy.onSearch, onSearch, Proxy.performSearch, performSearch.
    rewrite B. destruct (validateQuery (q s)); [reflexivity|].
    fields. destruct (encodeURIComponent (q s)) as [enc|];
      cbn [andThen Proxy.sameButHost]; [|reflexivity].
    split; [reflexivity|]. split.
    + exists (lit "/search?q=" ++ enc). split; reflexivity.
    + intros r s2. replies r; reflexivity.
  - unfold Proxy.getSignal, getSignal. rewrite B.
    destruct (result s) as [r0|]; [|reflexivity].
    destruct (encodeURIComponent (selectSymbol r0)) as [enc|];
      cbn [Proxy.sameButHost]; [|reflexivity].
    split; [reflexivity|]. split.
    + exists (lit "/signal/" ++ enc). split; reflexivity.
    + intros r s2. reflexivity.
  - unfold Proxy.feelingLucky, feelingLucky. rewrite B.
    cbn [Proxy.sameButHost].
    split; [reflexivity|]. split.
    + exists (lit "/lucky"). split; reflexivity.
    + intros r s2. reflexivity.
Qed.

Lemma proxy_agrees_with_page_witness :
  let b := lit "https://api.test" in
  let s := setResult (Some tesla) (setQ (lit "TESLA") initial) in
  truthy b = true
  /\ dispatched (Proxy.onSearch s) = Some (lit "/api/search?q=TESLA")
  /\ dispatched (onSearch (Some b) s)
     = Some (lit "https://api.test/search?q=TESLA")
  /\ Proxy.sameButHost (lit "/api") b (Proxy.getSignal s)
       (getSignal (Some b) s).
Proof.
  intros b s.
  destruct (proxy_agrees_with_page b s eq_refl) as (_ & H & _).
  split; [reflexivity|]. split; [reflexivity|]. split; [reflexivity|].
  exact H.
Defined.

End Versions.
